(** * Financial-analyst backend: market-data cache-aside service and
      JWT session lifecycle

    A shallow embedding of
      - [backend/src/services/marketDataService.js]  (MarketDataService),
      - [backend/src/middleware/auth.js]             (validateToken, authRateLimit, logout, ...),
      - [backend/src/api/routes/auth.js]             (register, login, refresh, logout, profile routes),
      - [backend/src/api/routes/market.js]           (the stock-data route and its validation),
      - [backend/src/config/redis.js]                (cache, session and rate-limit helpers),
      - [backend/src/config/database.js]             (executeQuery),
    followed by the properties the specification states about them. *)

From stdpp Require Import gmap strings list pretty.
From Stdlib Require Import ZArith Lia.

Local Open Scope string_scope.
Local Open Scope Z_scope.

(** ** Tokens *)

Record jwt_payload := { userId : string; sessionId : string }.

(** Tokens, symbolically: a token signed with [secret] that expires at [exp],
    or any other text.  Nobody can produce a token that verifies under a
    secret without signing with it. *)
Inductive token : Type :=
  | Signed (secret : string) (payload : jwt_payload) (exp : Z)
  | Malformed (text : string).

Definition token_eqb (a b : token) : bool :=
  match a, b with
  | Signed s1 p1 e1, Signed s2 p2 e2 =>
      String.eqb s1 s2 && String.eqb (userId p1) (userId p2)
      && String.eqb (sessionId p1) (sessionId p2) && (e1 =? e2)
  | Malformed t1, Malformed t2 => String.eqb t1 t2
  | _, _ => false
  end.

(** ** JavaScript values

    Market data, cached values and response bodies are JSON-like values that
    the code passes around without a static shape, so they are embedded as a
    universal value type.  Numbers are integers: the only arithmetic the
    embedded code performs is on counters and day counts; prices travel
    through untouched.  [JBuiltin name] stands for the member [name] of
    [Object.prototype] (a function, or the prototype object itself for
    [__proto__]); such values are reachable by reading an inherited property
    of an object literal.  [JToken t] is the text of the token [t]. *)

#[local] Set Warnings "-register-all".

Inductive jsval : Type :=
  | JUndefined
  | JNull
  | JBool (b : bool)
  | JNum (n : Z)
  | JNaN
  | JStr (s : string)
  | JArr (items : list jsval)
  | JObj (fields : list (string * jsval))
  | JBuiltin (name : string)
  | JToken (t : token).

Module Js.

(** [ToBoolean]: the falsy values are undefined, null, false, 0, NaN and
    the empty string. *)
Definition truthy (v : jsval) : bool :=
  match v with
  | JUndefined | JNull | JNaN => false
  | JBool b => b
  | JNum n => negb (n =? 0)
  | JStr s => negb (String.eqb s EmptyString)
  | JArr _ | JObj _ | JBuiltin _ => true
  | JToken (Malformed t) => negb (String.eqb t EmptyString)
  | JToken (Signed _ _ _) => true
  end.

(** [a || b] *)
Definition or (a b : jsval) : jsval := if truthy a then a else b.

(** Own properties of an object literal, in insertion order. *)
Fixpoint own (fields : list (string * jsval)) (k : string) : option jsval :=
  match fields with
  | [] => None
  | (k', v) :: rest => if String.eqb k' k then Some v else own rest k
  end.

(** The property names every plain object inherits from
    [Object.prototype]. *)
Definition object_prototype_names : list string :=
  [ "constructor"; "__defineGetter__"; "__defineSetter__"; "hasOwnProperty";
    "__lookupGetter__"; "__lookupSetter__"; "isPrototypeOf";
    "propertyIsEnumerable"; "toString"; "valueOf"; "__proto__";
    "toLocaleString" ].

Definition inherited (k : string) : bool :=
  existsb (String.eqb k) object_prototype_names.

(** [o[k]] for an [o] that is not null or undefined: an own property, else
    the prototype chain, else undefined. *)
Definition get (o : jsval) (k : string) : jsval :=
  match o with
  | JObj fields =>
      match own fields k with
      | Some v => v
      | None => if inherited k then JBuiltin k else JUndefined
      end
  | _ => JUndefined
  end.

(** [o[k] = v] on the field list of an object: overwrite in place, or
    append a new property. *)
Fixpoint set (fields : list (string * jsval)) (k : string) (v : jsval)
  : list (string * jsval) :=
  match fields with
  | [] => [(k, v)]
  | (k', v') :: rest =>
      if String.eqb k' k then (k, v) :: rest else (k', v') :: set rest k v
  end.

(** [typeof v === 'object'] *)
Definition typeof_object (v : jsval) : bool :=
  match v with
  | JNull | JArr _ | JObj _ => true
  | _ => false
  end.

(** What [JSON.parse (JSON.stringify v)] reads back: undefined and function
    members of an object are dropped, in an array they become null, NaN
    becomes null. *)
Fixpoint json_roundtrip (v : jsval) : jsval :=
  match v with
  | JNaN => JNull
  | JBuiltin _ => JUndefined
  | JArr items =>
      JArr (map (fun x => match json_roundtrip x with
                          | JUndefined => JNull
                          | y => y
                          end) items)
  | JObj fields =>
      JObj ((fix go (fs : list (string * jsval)) : list (string * jsval) :=
               match fs with
               | [] => []
               | (k, x) :: rest =>
                   match json_roundtrip x with
                   | JUndefined => go rest
                   | y => (k, y) :: go rest
                   end
               end) fields)
  | _ => v
  end.

(** Structural equality on values. *)
Fixpoint eqb (a b : jsval) : bool :=
  match a, b with
  | JUndefined, JUndefined | JNull, JNull | JNaN, JNaN => true
  | JBool x, JBool y => Bool.eqb x y
  | JNum x, JNum y => x =? y
  | JStr x, JStr y => String.eqb x y
  | JBuiltin x, JBuiltin y => String.eqb x y
  | JToken x, JToken y => token_eqb x y
  | JArr xs, JArr ys =>
      (fix go (l1 l2 : list jsval) : bool :=
         match l1, l2 with
         | [], [] => true
         | x :: l1', y :: l2' => eqb x y && go l1' l2'
         | _, _ => false
         end) xs ys
  | JObj xs, JObj ys =>
      (fix go (l1 l2 : list (string * jsval)) : bool :=
         match l1, l2 with
         | [], [] => true
         | (k1, x) :: l1', (k2, y) :: l2' =>
             String.eqb k1 k2 && eqb x y && go l1' l2'
         | _, _ => false
         end) xs ys
  | _, _ => false
  end.

End Js.

(** ** MarketDataService.getPeriodInDays *)

Definition periodMap : jsval :=
  JObj [ ("1d", JNum 1); ("5d", JNum 5); ("1mo", JNum 30); ("3mo", JNum 90);
         ("6mo", JNum 180); ("1y", JNum 365); ("2y", JNum 730);
         ("5y", JNum 1825); ("10y", JNum 3650); ("ytd", JNum 365);
         ("max", JNum 3650) ].

(** [return periodMap[period] || 365;] *)
Definition getPeriodInDays (period : string) : jsval :=
  Js.or (Js.get periodMap period) (JNum 365).

(** The keys of [periodMap]. *)
Definition enumerated_periods : list string :=
  [ "1d"; "5d"; "1mo"; "3mo"; "6mo"; "1y"; "2y"; "5y"; "10y"; "ytd"; "max" ].

(** ** Outcomes, the environment and the world

    A JavaScript call either returns or throws; an exception carries its
    message.  The state a request can observe or change is the [World]: the
    clock, the Redis keyspace, the Postgres tables, and what was logged.  What
    the code cannot control is the [Env]: configuration, the answers of the
    upstream provider, library functions, and which I/O calls fail. *)

Inductive outcome (A : Type) : Type :=
  | Ok (a : A)
  | Throw (message : string).
Arguments Ok {A} a.
Arguments Throw {A} message.

(** A text held by Redis: the serialisation of a value ([JSON.stringify]),
    a counter written by INCR, or a string written as it is. *)
Inductive stored : Type :=
  | Json (v : jsval)
  | Int (n : Z)
  | Raw (s : string).

Record redis_entry := { value : stored; expires : option Z }.

Record user_row := {
  u_id : string;
  u_email : string;
  u_password_hash : string;
  u_first_name : string;
  u_last_name : string;
  u_is_active : bool;
  u_created_at : Z
}.

Record refresh_token_row := {
  rt_user_id : string;
  rt_token : string;
  rt_expires_at : Z
}.

Record stock_row := {
  st_company_name : jsval;
  st_sector : jsval;
  st_industry : jsval;
  st_market_cap : jsval;
  st_updated_at : Z
}.

Record price_row := {
  pr_time : jsval;
  pr_symbol : string;
  pr_open : jsval;
  pr_high : jsval;
  pr_low : jsval;
  pr_close : jsval;
  pr_volume : jsval
}.

(** The tables the embedded code reads or writes.  [stocks] has primary key
    [symbol]; [stock_prices] has primary key [(time, symbol)]. *)
Record database := {
  users : list user_row;
  refresh_tokens : list refresh_token_row;
  stocks : gmap string stock_row;
  stock_prices : list price_row
}.

Inductive log_level := Debug | Info | Warn | Error.

(** One logger call: level, text, and the message of the error passed along
    with it, if any. *)
Record log_entry := { level : log_level; text : string; detail : option string }.

Record World := {
  now : Z;                          (* the clock, in seconds *)
  redis : gmap string redis_entry;
  redis_ops : nat;                  (* Redis commands issued so far *)
  db : database;                    (* committed tables *)
  db_txn : option database;         (* open transaction of the checked-out client *)
  db_ops : nat;                     (* pool and client calls issued so far *)
  rng_ops : nat;                    (* random draws so far *)
  bcrypt_compares : nat;            (* calls of bcrypt.compare so far *)
  log : list log_entry
}.

Record Env := {
  JWT_SECRET : string;
  JWT_REFRESH_SECRET : string;
  redis_fault : nat -> bool;        (* does the n-th Redis command fail? *)
  db_fault : nat -> bool;           (* does the n-th pool or client call fail? *)
  randomBytes : nat -> string;      (* crypto.randomBytes(32).toString('hex') *)
  bcrypt_compare : string -> string -> bool;
  isEmail : string -> bool;
  normalizeEmail : string -> string;
  toISOString : Z -> string;
  parseFloat : jsval -> jsval;
  parseInt : jsval -> jsval;
  yahoo_quote : string -> outcome jsval;
  yahoo_historical : string -> jsval -> string -> outcome jsval;
  yahoo_info : string -> outcome jsval
}.

(** Library functions and server-side defaults that the registration route
    and the market routes rely on. *)
Record Lib := {
  bcrypt_hash : string -> nat -> string;  (* bcrypt.hash(password, 12), by salt draw *)
  gen_random_uuid : nat -> string;        (* the DEFAULT of users.id, by call *)
  trim : string -> string;                (* the sanitizer .trim() *)
  password_pattern : string -> bool;      (* .matches(/^(?=.*[a-z])(?=.*[A-Z])...)/) *)
  token_length : token -> Z               (* the length of the text of a token *)
}.

(** Field updates. *)
Definition with_redis (r : gmap string redis_entry) (w : World) : World :=
  {| now := now w; redis := r; redis_ops := redis_ops w; db := db w;
     db_txn := db_txn w; db_ops := db_ops w; rng_ops := rng_ops w;
     bcrypt_compares := bcrypt_compares w; log := log w |}.

Definition with_redis_ops (n : nat) (w : World) : World :=
  {| now := now w; redis := redis w; redis_ops := n; db := db w;
     db_txn := db_txn w; db_ops := db_ops w; rng_ops := rng_ops w;
     bcrypt_compares := bcrypt_compares w; log := log w |}.

Definition with_db (d : database) (w : World) : World :=
  {| now := now w; redis := redis w; redis_ops := redis_ops w; db := d;
     db_txn := db_txn w; db_ops := db_ops w; rng_ops := rng_ops w;
     bcrypt_compares := bcrypt_compares w; log := log w |}.

Definition with_db_txn (t : option database) (w : World) : World :=
  {| now := now w; redis := redis w; redis_ops := redis_ops w; db := db w;
     db_txn := t; db_ops := db_ops w; rng_ops := rng_ops w;
     bcrypt_compares := bcrypt_compares w; log := log w |}.

Definition with_db_ops (n : nat) (w : World) : World :=
  {| now := now w; redis := redis w; redis_ops := redis_ops w; db := db w;
     db_txn := db_txn w; db_ops := n; rng_ops := rng_ops w;
     bcrypt_compares := bcrypt_compares w; log := log w |}.

Definition with_rng_ops (n : nat) (w : World) : World :=
  {| now := now w; redis := redis w; redis_ops := redis_ops w; db := db w;
     db_txn := db_txn w; db_ops := db_ops w; rng_ops := n;
     bcrypt_compares := bcrypt_compares w; log := log w |}.

Definition with_bcrypt_compares (n : nat) (w : World) : World :=
  {| now := now w; redis := redis w; redis_ops := redis_ops w; db := db w;
     db_txn := db_txn w; db_ops := db_ops w; rng_ops := rng_ops w;
     bcrypt_compares := n; log := log w |}.

Definition with_log (l : list log_entry) (w : World) : World :=
  {| now := now w; redis := redis w; redis_ops := redis_ops w; db := db w;
     db_txn := db_txn w; db_ops := db_ops w; rng_ops := rng_ops w;
     bcrypt_compares := bcrypt_compares w; log := l |}.

(** ** The effect monad: state that survives a throw *)

Definition M (A : Type) : Type := World -> outcome A * World.

Definition ret {A} (a : A) : M A := fun w => (Ok a, w).

Definition bind {A B} (m : M A) (k : A -> M B) : M B :=
  fun w =>
    match m w with
    | (Ok a, w') => k a w'
    | (Throw e, w') => (Throw e, w')
    end.

Definition throw {A} (message : string) : M A := fun w => (Throw message, w).

(** [try { m } catch (error) { handler error.message }] *)
Definition try_catch {A} (m : M A) (handler : string -> M A) : M A :=
  fun w =>
    match m w with
    | (Ok a, w') => (Ok a, w')
    | (Throw e, w') => handler e w'
    end.

(** [try { m } finally { cleanup }]: the cleanup always runs; if it throws,
    its exception replaces the outcome of [m]. *)
Definition try_finally {A} (m : M A) (cleanup : M unit) : M A :=
  fun w =>
    match m w with
    | (r, w') =>
        match cleanup w' with
        | (Ok _, w'') => (r, w'')
        | (Throw e, w'') => (Throw e, w'')
        end
    end.

Declare Scope js_scope.
Delimit Scope js_scope with js.
Notation "x <- m ;; k" := (bind m (fun x => k))
  (at level 100, m at next level, right associativity) : js_scope.
Notation "m ;; k" := (bind m (fun _ => k))
  (at level 100, right associativity) : js_scope.
Local Open Scope js_scope.

Definition get_world : M World := fun w => (Ok w, w).
Definition modify (f : World -> World) : M unit := fun w => (Ok tt, f w).

(** [logger.<level>(text, error)] *)
Definition logger (lv : log_level) (t : string) (err : option string) : M unit :=
  modify (fun w => with_log (log w ++ [ {| level := lv; text := t; detail := err |} ]) w).


(** ** HTTP messages *)

(** The [Authorization] header: [Bearer tok] is the text ['Bearer '] followed
    by [tok] (the empty text is [Malformed EmptyString]); [OtherScheme] is
    any text that does not start with ['Bearer ']. *)
Inductive auth_header : Type :=
  | OtherScheme (text : string)
  | Bearer (tok : token).

(** [req.user], as attached by [validateToken]. *)
Record req_user := {
  ru_id : string;
  ru_sessionId : string;
  ru_email : string;
  ru_firstName : string;
  ru_lastName : string
}.

Record request := {
  ip : string;
  authorization : option auth_header;
  body_email : string;
  body_password : string;
  body_refreshToken : token;
  user : option req_user;
  validation_errors : list string
}.

Record response := { status : Z; body : jsval }.

(** [res.status(code).json(payload)]: the client reads the serialised
    payload. *)
Definition res_json (code : Z) (payload : jsval) : response :=
  {| status := code; body := Js.json_roundtrip payload |}.

(** A middleware either calls [next()] (possibly after changing [req]) or
    ends the request with a response. *)
Inductive step : Type :=
  | Next (req : request)
  | Respond (res : response).

(** What arrives from the network, before any middleware has run. *)
Record http_request := {
  h_ip : string;
  h_authorization : option auth_header;
  h_email : string;
  h_password : string;
  h_refreshToken : token
}.

Definition express_req (h : http_request) : request :=
  {| ip := h_ip h; authorization := h_authorization h;
     body_email := h_email h; body_password := h_password h;
     body_refreshToken := h_refreshToken h; user := None;
     validation_errors := [] |}.

Definition with_user (u : req_user) (req : request) : request :=
  {| ip := ip req; authorization := authorization req;
     body_email := body_email req; body_password := body_password req;
     body_refreshToken := body_refreshToken req; user := Some u;
     validation_errors := validation_errors req |}.

Definition with_validation (email : string) (errs : list string) (req : request)
  : request :=
  {| ip := ip req; authorization := authorization req;
     body_email := email; body_password := body_password req;
     body_refreshToken := body_refreshToken req; user := user req;
     validation_errors := validation_errors req ++ errs |}.

(** The shape every failure response has. *)
Definition failure (err msg : string) : jsval :=
  JObj [ ("success", JBool false); ("error", JStr err); ("message", JStr msg) ].

Section Backend.

Variable E : Env.

(** ** config/redis.js *)

(** A key is visible until its expiry time. *)
Definition live (t : Z) (e : redis_entry) : bool :=
  match expires e with
  | None => true
  | Some x => t <? x
  end.

Definition redis_lookup (w : World) (key : string) : option redis_entry :=
  match redis w !! key with
  | Some e => if live (now w) e then Some e else None
  | None => None
  end.

(** A command sent through [getClient()]: it is counted, and it throws when
    the client is not connected or the server fails. *)
Definition redis_command {A} (run : World -> outcome A * World) : M A :=
  fun w =>
    let w' := with_redis_ops (S (redis_ops w)) w in
    if redis_fault E (redis_ops w) then (Throw "Redis command failed", w')
    else run w'.

Definition client_get (key : string) : M (option stored) :=
  redis_command (fun w => (Ok (value <$> redis_lookup w key), w)).

Definition client_setEx (key : string) (ttl : Z) (v : stored) : M unit :=
  redis_command (fun w =>
    if ttl <=? 0 then (Throw "ERR invalid expire time in setex", w)
    else (Ok tt, with_redis
                   (<[key := {| value := v; expires := Some (now w + ttl) |}]> (redis w)) w)).

Definition client_del (key : string) : M unit :=
  redis_command (fun w => (Ok tt, with_redis (delete key (redis w)) w)).

(** INCR: a missing key counts from 0 and gets no expiry; an existing
    counter keeps its expiry; 64-bit signed range. *)
Definition client_incr (key : string) : M Z :=
  redis_command (fun w =>
    match redis_lookup w key with
    | None =>
        (Ok 1, with_redis (<[key := {| value := Int 1; expires := None |}]> (redis w)) w)
    | Some e =>
        match value e with
        | Int n =>
            if 2 ^ 63 - 1 <=? n
            then (Throw "ERR increment or decrement would overflow", w)
            else (Ok (n + 1),
                  with_redis (<[key := {| value := Int (n + 1); expires := expires e |}]> (redis w)) w)
        | _ => (Throw "ERR value is not an integer or out of range", w)
        end
    end).

Definition client_expire (key : string) (seconds : Z) : M unit :=
  redis_command (fun w =>
    match redis_lookup w key with
    | None => (Ok tt, w)
    | Some e =>
        (Ok tt, with_redis
                  (<[key := {| value := value e; expires := Some (now w + seconds) |}]> (redis w)) w)
    end).

(** [typeof value === 'object' ? JSON.stringify(value) : value]; the client
    accepts only texts as arguments. *)
Definition serializedValue (v : jsval) : outcome stored :=
  if Js.typeof_object v then Ok (Json v)
  else match v with
       | JStr s => Ok (Raw s)
       | _ => Throw "Invalid argument type"
       end.

Definition setCache (key : string) (v : jsval) (ttl : Z) : M unit :=
  try_catch
    (match serializedValue v with
     | Ok sv =>
         client_setEx key ttl sv ;;
         logger Debug ("Cache set: " +:+ key) None
     | Throw e => throw e
     end)
    (fun error =>
       logger Error ("Error setting cache for key " +:+ key +:+ ":") (Some error)).

(** [if (value)] on the text read from Redis. *)
Definition stored_truthy (sv : stored) : bool :=
  match sv with
  | Raw s => negb (String.eqb s EmptyString)
  | _ => true
  end.

(** [try { return JSON.parse(value); } catch { return value; }]; a raw text
    reads back as itself (the embedded code never writes one). *)
Definition parse_stored (sv : stored) : jsval :=
  match sv with
  | Json v => Js.json_roundtrip v
  | Int n => JNum n
  | Raw s => JStr s
  end.

Definition getCache (key : string) : M jsval :=
  try_catch
    (v <- client_get key ;;
     match v with
     | Some sv =>
         if stored_truthy sv
         then logger Debug ("Cache hit: " +:+ key) None ;; ret (parse_stored sv)
         else logger Debug ("Cache miss: " +:+ key) None ;; ret JNull
     | None => logger Debug ("Cache miss: " +:+ key) None ;; ret JNull
     end)
    (fun error =>
       logger Error ("Error getting cache for key " +:+ key +:+ ":") (Some error) ;;
       ret JNull).

Definition deleteCache (key : string) : M unit :=
  try_catch
    (client_del key ;;
     logger Debug ("Cache deleted: " +:+ key) None)
    (fun error =>
       logger Error ("Error deleting cache for key " +:+ key +:+ ":") (Some error)).

Definition setSession (sid : string) (userData : jsval) : M unit :=
  setCache ("session:" +:+ sid) userData 86400.

Definition getSession (sid : string) : M jsval :=
  getCache ("session:" +:+ sid).

Definition deleteSession (sid : string) : M unit :=
  deleteCache ("session:" +:+ sid).

Definition incrementRateLimit (key : string) (windowMs : Z) : M Z :=
  try_catch
    (current <- client_incr key ;;
     (if current =? 1 then client_expire key (windowMs / 1000) else ret tt) ;;
     ret current)
    (fun error =>
       logger Error ("Error incrementing rate limit for key " +:+ key +:+ ":") (Some error) ;;
       ret 0).

(** [parseInt(current)] on a text read from Redis: a counter written by INCR
    and a serialised number read as the number; any other serialised value
    starts with a brace, a bracket, a quote or a letter. *)
Definition parseInt_stored (sv : stored) : jsval :=
  match sv with
  | Int n => JNum n
  | Json (JNum n) => JNum n
  | Json _ => JNaN
  | Raw s => parseInt E (JStr s)
  end.

(** [return current ? parseInt(current) : 0;] *)
Definition getRateLimit (key : string) : M jsval :=
  try_catch
    (current <- client_get key ;;
     match current with
     | Some sv => if stored_truthy sv then ret (parseInt_stored sv) else ret (JNum 0)
     | None => ret (JNum 0)
     end)
    (fun error =>
       logger Error ("Error getting rate limit for key " +:+ key +:+ ":") (Some error) ;;
       ret (JNum 0)).

Definition setMarketData (symbol : string) (data : jsval) (ttl : Z) : M unit :=
  setCache ("market:" +:+ symbol) data ttl.

Definition getMarketData (symbol : string) : M jsval :=
  getCache ("market:" +:+ symbol).

(** ** config/database.js *)

(** A call on the pool or on a client: it is counted, and it throws when the
    pool is not connected or the server fails. *)
Definition db_call {A} (run : World -> outcome A * World) : M A :=
  fun w =>
    let w' := with_db_ops (S (db_ops w)) w in
    if db_fault E (db_ops w) then (Throw "database call failed", w')
    else run w'.

(** What a statement does to the tables at a given time: rows and new
    tables, or a constraint violation. *)
Definition statement (A : Type) : Type := Z -> database -> outcome (A * database).

(** [getPool().connect()] and [client.release()]. *)
Definition pool_connect : M unit := db_call (fun w => (Ok tt, w)).
Definition client_release : M unit := ret tt.

(** [client.query] on a client with no open transaction: the statement
    commits on its own. *)
Definition autocommit_query {A} (q : statement A) : M A :=
  db_call (fun w =>
    match q (now w) (db w) with
    | Ok (a, d) => (Ok a, with_db d w)
    | Throw e => (Throw e, w)
    end).

Definition executeQuery {A} (q : statement A) : M A :=
  pool_connect ;;
  try_finally (autocommit_query q) client_release.

(** The client that [storeStockData] checks out: BEGIN takes a snapshot,
    statements work on it, COMMIT publishes it, ROLLBACK drops it. *)
Definition client_BEGIN : M unit :=
  db_call (fun w => (Ok tt, with_db_txn (Some (db w)) w)).

Definition client_query {A} (q : statement A) : M A :=
  db_call (fun w =>
    match db_txn w with
    | Some t =>
        match q (now w) t with
        | Ok (a, t') => (Ok a, with_db_txn (Some t') w)
        | Throw e => (Throw e, w)
        end
    | None =>
        match q (now w) (db w) with
        | Ok (a, d) => (Ok a, with_db d w)
        | Throw e => (Throw e, w)
        end
    end).

Definition client_COMMIT : M unit :=
  db_call (fun w =>
    match db_txn w with
    | Some t => (Ok tt, with_db_txn None (with_db t w))
    | None => (Ok tt, w)
    end).

Definition client_ROLLBACK : M unit :=
  db_call (fun w => (Ok tt, with_db_txn None w)).

Definition with_users (l : list user_row) (d : database) : database :=
  {| users := l; refresh_tokens := refresh_tokens d; stocks := stocks d;
     stock_prices := stock_prices d |}.

Definition with_refresh_tokens (l : list refresh_token_row) (d : database) : database :=
  {| users := users d; refresh_tokens := l; stocks := stocks d;
     stock_prices := stock_prices d |}.

Definition with_stocks (m : gmap string stock_row) (d : database) : database :=
  {| users := users d; refresh_tokens := refresh_tokens d; stocks := m;
     stock_prices := stock_prices d |}.

Definition with_stock_prices (l : list price_row) (d : database) : database :=
  {| users := users d; refresh_tokens := refresh_tokens d; stocks := stocks d;
     stock_prices := l |}.

(** [SELECT ... FROM users WHERE email = $1] *)
Definition select_user_by_email (email : string) : statement (list user_row) :=
  fun _ d => Ok (filter (fun u => u_email u = email) (users d), d).

(** [SELECT ... FROM users WHERE id = $1] *)
Definition select_user_by_id (id : string) : statement (list user_row) :=
  fun _ d => Ok (filter (fun u => u_id u = id) (users d), d).

(** [SELECT user_id, expires_at FROM refresh_tokens
     WHERE token = $1 AND expires_at > NOW()] *)
Definition select_refresh_token (tok : string) : statement (list refresh_token_row) :=
  fun t d =>
    Ok (filter (fun r => rt_token r = tok /\ t < rt_expires_at r) (refresh_tokens d), d).

(** [INSERT INTO refresh_tokens (user_id, token, expires_at)
     VALUES ($1, $2, NOW() + INTERVAL '7 days')]; [token] is UNIQUE. *)
Definition insert_refresh_token (uid tok : string) : statement unit :=
  fun t d =>
    if decide (Exists (fun r => rt_token r = tok) (refresh_tokens d))
    then Throw "duplicate key value violates unique constraint"
    else Ok (tt, with_refresh_tokens
                   (refresh_tokens d ++
                      [ {| rt_user_id := uid; rt_token := tok;
                           rt_expires_at := t + 7 * 86400 |} ]) d).

(** [DELETE FROM refresh_tokens WHERE user_id = $1 AND token = $2] *)
Definition delete_refresh_token (uid tok : string) : statement unit :=
  fun _ d =>
    Ok (tt, with_refresh_tokens
              (filter (fun r => ~ (rt_user_id r = uid /\ rt_token r = tok))
                      (refresh_tokens d)) d).

(** ** jsonwebtoken *)

(** [jwt.verify(token, secret)]: the payload, or a throw when the text is no
    token, the signature is not by [secret], or the token has expired. *)
Definition jwt_verify (tok : token) (secret : string) : M jwt_payload :=
  fun w =>
    match tok with
    | Signed s p exp =>
        if String.eqb s secret
        then if now w <? exp then (Ok p, w) else (Throw "jwt expired", w)
        else (Throw "invalid signature", w)
    | Malformed _ => (Throw "jwt malformed", w)
    end.

(** [jwt.sign(payload, secret, { expiresIn })], [expiresIn] in seconds. *)
Definition jwt_sign (p : jwt_payload) (secret : string) (expiresIn : Z) : M token :=
  fun w => (Ok (Signed secret p (now w + expiresIn)), w).

(** ** middleware/auth.js *)

Definition token_empty (tok : token) : bool :=
  match tok with
  | Malformed t => String.eqb t EmptyString
  | Signed _ _ _ => false
  end.

Definition validateToken (req : request) : M step :=
  try_catch
    (match authorization req with
     | None | Some (OtherScheme _) =>
         ret (Respond (res_json 401
                (failure "Access token required"
                         "No authorization header or invalid format")))
     | Some (Bearer tok) =>
         if token_empty tok
         then ret (Respond (res_json 401
                     (failure "Access token required" "Token not provided")))
         else
           try_catch
             (decoded <- jwt_verify tok (JWT_SECRET E) ;;
              session <- getSession (sessionId decoded) ;;
              if negb (Js.truthy session)
              then ret (Respond (res_json 401
                          (failure "Invalid session" "Session expired or invalid")))
              else
                userResult <- executeQuery (select_user_by_id (userId decoded)) ;;
                match userResult with
                | [] =>
                    deleteSession (sessionId decoded) ;;
                    ret (Respond (res_json 401
                           (failure "User not found or inactive"
                                    "User account is inactive or deleted")))
                | row :: _ =>
                    if negb (u_is_active row)
                    then
                      deleteSession (sessionId decoded) ;;
                      ret (Respond (res_json 401
                             (failure "User not found or inactive"
                                      "User account is inactive or deleted")))
                    else
                      ret (Next (with_user
                                   {| ru_id := userId decoded;
                                      ru_sessionId := sessionId decoded;
                                      ru_email := u_email row;
                                      ru_firstName := u_first_name row;
                                      ru_lastName := u_last_name row |} req))
                end)
             (fun jwtError =>
                logger Error "JWT verification failed:" (Some jwtError) ;;
                ret (Respond (res_json 401
                       (failure "Invalid token" "Token is invalid or expired"))))
     end)
    (fun error =>
       logger Error "Authentication middleware error:" (Some error) ;;
       ret (Respond (res_json 500
              (failure "Authentication error"
                       "Internal server error during authentication")))).

(** [optionalAuth]: the same checks as [validateToken], but every way out
    is [next()]. *)
Definition optionalAuth (req : request) : M step :=
  try_catch
    (match authorization req with
     | None | Some (OtherScheme _) => ret (Next req)
     | Some (Bearer tok) =>
         if token_empty tok then ret (Next req)
         else
           try_catch
             (decoded <- jwt_verify tok (JWT_SECRET E) ;;
              session <- getSession (sessionId decoded) ;;
              if Js.truthy session
              then
                userResult <- executeQuery (select_user_by_id (userId decoded)) ;;
                match userResult with
                | [] => ret (Next req)
                | row :: _ =>
                    if u_is_active row
                    then ret (Next (with_user
                                      {| ru_id := userId decoded;
                                         ru_sessionId := sessionId decoded;
                                         ru_email := u_email row;
                                         ru_firstName := u_first_name row;
                                         ru_lastName := u_last_name row |} req))
                    else ret (Next req)
                end
              else ret (Next req))
             (fun jwtError =>
                logger Debug "Optional auth: Invalid token provided" None ;;
                ret (Next req))
     end)
    (fun error =>
       logger Error "Optional authentication middleware error:" (Some error) ;;
       ret (Next req)).

(** [expiresIn: '15m'] and [expiresIn: '7d'], in seconds. *)
Definition generateTokens (uid sid : string) : M (token * token) :=
  accessToken <- jwt_sign {| userId := uid; sessionId := sid |} (JWT_SECRET E) (15 * 60) ;;
  refreshToken <- jwt_sign {| userId := uid; sessionId := sid |} (JWT_REFRESH_SECRET E)
                    (7 * 86400) ;;
  ret (accessToken, refreshToken).

Definition comparePassword (password hash : string) : M bool :=
  modify (fun w => with_bcrypt_compares (S (bcrypt_compares w)) w) ;;
  ret (bcrypt_compare E password hash).

Definition generateSessionId : M string :=
  w <- get_world ;;
  modify (with_rng_ops (S (rng_ops w))) ;;
  ret (randomBytes E (rng_ops w)).

Definition rate_limited : response :=
  res_json 429
    (failure "Rate limit exceeded"
             "Too many authentication attempts. Please try again later.").

Definition authRateLimit (req : request) : M step :=
  try_catch
    (let key := "auth_rate_limit:" +:+ ip req in
     current <- incrementRateLimit key (15 * 60 * 1000) ;;
     if 5 <? current
     then ret (Respond rate_limited)
     else ret (Next req))
    (fun error =>
       logger Error "Rate limiting error:" (Some error) ;;
       ret (Next req)).

Definition logout (req : request) : M step :=
  try_catch
    (match user req with
     | Some u =>
         if negb (String.eqb (ru_sessionId u) EmptyString)
         then
           deleteSession (ru_sessionId u) ;;
           executeQuery (delete_refresh_token (ru_id u) (ru_sessionId u)) ;;
           ret (Next req)
         else ret (Next req)
     | None => ret (Next req)
     end)
    (fun error =>
       logger Error "Logout error:" (Some error) ;;
       ret (Next req)).

(** ** api/routes/auth.js *)

(** [router.<method>(path, ...middlewares, handler)] *)
Fixpoint run_chain (ms : list (request -> M step)) (handler : request -> M response)
    (req : request) : M response :=
  match ms with
  | [] => handler req
  | m :: ms' =>
      s <- m req ;;
      match s with
      | Next req' => run_chain ms' handler req'
      | Respond res => ret res
      end
  end.

(** express-validator chains: they sanitise the body and record messages for
    [validationResult(req)]; they never answer the request themselves. *)
Definition loginValidation (req : request) : M step :=
  ret (Next (with_validation (normalizeEmail E (body_email req))
               ((if isEmail E (body_email req) then []
                 else ["Please provide a valid email address"]) ++
                (if String.eqb (body_password req) EmptyString
                 then ["Password is required"] else []))
               req)).

Definition refreshValidation (req : request) : M step :=
  ret (Next (with_validation (body_email req)
               (if token_empty (body_refreshToken req)
                then ["Refresh token is required"] else [])
               req)).

Definition validation_failed (req : request) : response :=
  res_json 400
    (JObj [ ("success", JBool false); ("error", JStr "Validation failed");
            ("message", JStr "Please check your input");
            ("details", JArr (map JStr (validation_errors req))) ]).

Definition invalid_credentials : response :=
  res_json 401 (failure "Invalid credentials" "Email or password is incorrect").

Definition account_inactive : response :=
  res_json 401 (failure "Account inactive" "Your account has been deactivated").

Definition login_handler (req : request) : M response :=
  try_catch
    (match validation_errors req with
     | _ :: _ => ret (validation_failed req)
     | [] =>
         let email := body_email req in
         let password := body_password req in
         userResult <- executeQuery (select_user_by_email email) ;;
         match userResult with
         | [] => ret invalid_credentials
         | row :: _ =>
             if negb (u_is_active row) then ret account_inactive
             else
               isPasswordValid <- comparePassword password (u_password_hash row) ;;
               if negb isPasswordValid then ret invalid_credentials
               else
                 sid <- generateSessionId ;;
                 tokens <- generateTokens (u_id row) sid ;;
                 setSession sid
                   (JObj [ ("userId", JStr (u_id row)); ("email", JStr (u_email row));
                           ("firstName", JUndefined); ("lastName", JUndefined) ]) ;;
                 executeQuery (insert_refresh_token (u_id row) sid) ;;
                 logger Info ("User logged in: " +:+ email) None ;;
                 w <- get_world ;;
                 ret (res_json 200
                        (JObj [ ("success", JBool true);
                                ("message", JStr "Login successful");
                                ("data",
                                 JObj [ ("user",
                                         JObj [ ("id", JStr (u_id row));
                                                ("email", JStr (u_email row));
                                                ("firstName", JUndefined);
                                                ("lastName", JUndefined) ]);
                                        ("tokens",
                                         JObj [ ("accessToken", JToken (fst tokens));
                                                ("refreshToken", JToken (snd tokens)) ]) ]);
                                ("timestamp", JStr (toISOString E (now w))) ]))
         end
     end)
    (fun error =>
       logger Error "Login error:" (Some error) ;;
       ret (res_json 500
              (failure "Login failed" "Internal server error during login"))).

Definition refresh_handler (req : request) : M response :=
  try_catch
    (match validation_errors req with
     | _ :: _ => ret (validation_failed req)
     | [] =>
         let refreshToken := body_refreshToken req in
         verified <- try_catch
                       (decoded <- jwt_verify refreshToken (JWT_REFRESH_SECRET E) ;;
                        ret (Some decoded))
                       (fun jwtError => ret None) ;;
         match verified with
         | None =>
             ret (res_json 401
                    (failure "Invalid refresh token"
                             "Refresh token is invalid or expired"))
         | Some decoded =>
             tokenResult <- executeQuery (select_refresh_token (sessionId decoded)) ;;
             match tokenResult with
             | [] =>
                 ret (res_json 401
                        (failure "Invalid refresh token"
                                 "Refresh token not found or expired"))
             | _ :: _ =>
                 userResult <- executeQuery (select_user_by_id (userId decoded)) ;;
                 match userResult with
                 | [] =>
                     ret (res_json 401
                            (failure "User not found or inactive"
                                     "User account is inactive or deleted"))
                 | row :: _ =>
                     if negb (u_is_active row)
                     then ret (res_json 401
                                 (failure "User not found or inactive"
                                          "User account is inactive or deleted"))
                     else
                       newAccessToken <-
                         jwt_sign {| userId := userId decoded;
                                     sessionId := sessionId decoded |}
                                  (JWT_SECRET E) (15 * 60) ;;
                       logger Info ("Token refreshed for user: " +:+ u_email row) None ;;
                       w <- get_world ;;
                       ret (res_json 200
                              (JObj [ ("success", JBool true);
                                      ("message", JStr "Token refreshed successfully");
                                      ("data",
                                       JObj [ ("accessToken", JToken newAccessToken) ]);
                                      ("timestamp", JStr (toISOString E (now w))) ]))
                 end
             end
         end
     end)
    (fun error =>
       logger Error "Token refresh error:" (Some error) ;;
       ret (res_json 500
              (failure "Token refresh failed"
                       "Internal server error during token refresh"))).

Definition logout_handler (req : request) : M response :=
  w <- get_world ;;
  ret (res_json 200
         (JObj [ ("success", JBool true); ("message", JStr "Logout successful");
                 ("timestamp", JStr (toISOString E (now w))) ])).

Definition profile_handler (req : request) : M response :=
  try_catch
    (match authorization req with
     | None | Some (OtherScheme _) =>
         ret (res_json 401 (failure "Authentication required" "Access token required"))
     | Some (Bearer tok) =>
         try_catch
           (decoded <- jwt_verify tok (JWT_SECRET E) ;;
            userResult <- executeQuery (select_user_by_id (userId decoded)) ;;
            match userResult with
            | [] =>
                ret (res_json 404 (failure "User not found" "User profile not found"))
            | row :: _ =>
                w <- get_world ;;
                ret (res_json 200
                       (JObj [ ("success", JBool true);
                               ("data",
                                JObj [ ("user",
                                        JObj [ ("id", JStr (u_id row));
                                               ("email", JStr (u_email row));
                                               ("firstName", JUndefined);
                                               ("lastName", JUndefined);
                                               ("createdAt", JNum (u_created_at row)) ]) ]);
                               ("timestamp", JStr (toISOString E (now w))) ]))
            end)
           (fun jwtError =>
              ret (res_json 401 (failure "Invalid token" "Token is invalid or expired")))
     end)
    (fun error =>
       logger Error "Profile fetch error:" (Some error) ;;
       ret (res_json 500
              (failure "Profile fetch failed"
                       "Internal server error while fetching profile"))).

(** The routes as mounted. *)
Definition POST_login (h : http_request) : M response :=
  run_chain [authRateLimit; loginValidation] login_handler (express_req h).

Definition POST_refresh (h : http_request) : M response :=
  run_chain [refreshValidation] refresh_handler (express_req h).

Definition POST_logout (h : http_request) : M response :=
  run_chain [logout] logout_handler (express_req h).

Definition GET_profile (h : http_request) : M response :=
  run_chain [] profile_handler (express_req h).

(** [app.use('/api/portfolio', validateToken, portfolioRoutes)]: any route
    behind the access-token gate. *)
Definition protected (handler : request -> M response) (h : http_request) : M response :=
  run_chain [validateToken] handler (express_req h).

(** ** services/marketDataService.js *)

Definition lift {A} (o : outcome A) : M A := fun w => (o, w).

(** The object [getStockQuote] builds from the provider's answer at time
    [t]. *)
Definition quote_data (quote : jsval) (t : Z) : jsval :=
  JObj [ ("symbol", Js.get quote "symbol");
         ("price", Js.get quote "regularMarketPrice");
         ("change", Js.get quote "regularMarketChange");
         ("changePercent", Js.get quote "regularMarketChangePercent");
         ("volume", Js.get quote "regularMarketVolume");
         ("marketCap", Js.get quote "marketCap");
         ("high", Js.get quote "regularMarketDayHigh");
         ("low", Js.get quote "regularMarketDayLow");
         ("open", Js.get quote "regularMarketOpen");
         ("previousClose", Js.get quote "regularMarketPreviousClose");
         ("timestamp", JStr (toISOString E t)) ].

Definition getStockQuote (symbol : string) : M jsval :=
  try_catch
    (let cacheKey := "quote:" +:+ symbol in
     cachedQuote <- getMarketData cacheKey ;;
     if Js.truthy cachedQuote then ret cachedQuote
     else
       logger Info ("Fetching real-time quote for " +:+ symbol) None ;;
       quote <- lift (yahoo_quote E symbol) ;;
       if negb (Js.truthy quote)
       then throw ("No quote found for symbol: " +:+ symbol)
       else
         w <- get_world ;;
         let quoteData := quote_data quote (now w) in
         setMarketData cacheKey quoteData 60 ;;
         ret quoteData)
    (fun error =>
       logger Error ("Error fetching quote for " +:+ symbol +:+ ":") (Some error) ;;
       throw ("Failed to fetch quote for " +:+ symbol +:+ ": " +:+ error)).

(** [Object.entries(sectorETFs)] *)
Definition sectorETFs : list (string * string) :=
  [ ("XLK", "Technology"); ("XLF", "Financials"); ("XLE", "Energy");
    ("XLV", "Healthcare"); ("XLI", "Industrials"); ("XLP", "Consumer Staples");
    ("XLY", "Consumer Discretionary"); ("XLU", "Utilities"); ("XLB", "Materials");
    ("XLRE", "Real Estate") ].

(** The two shapes an entry of the sector map takes. *)
Definition sector_entry (etf sectorName : string) (quote : jsval) : jsval :=
  JObj [ ("etf", JStr etf); ("name", JStr sectorName);
         ("price", Js.get quote "price"); ("change", Js.get quote "change");
         ("changePercent", Js.get quote "changePercent") ].

Definition error_marker (message : string) : jsval :=
  JObj [ ("error", JStr message) ].

(** The body of [for (const [etf, sectorName] of Object.entries(sectorETFs))]. *)
Fixpoint sector_loop (entries : list (string * string)) (sectors : list (string * jsval))
  : M (list (string * jsval)) :=
  match entries with
  | [] => ret sectors
  | (etf, sectorName) :: rest =>
      entry <- try_catch
                 (quote <- getStockQuote etf ;;
                  ret (sector_entry etf sectorName quote))
                 (fun error =>
                    logger Error ("Error fetching " +:+ etf +:+ ":") (Some error) ;;
                    ret (error_marker error)) ;;
      sector_loop rest (Js.set sectors sectorName entry)
  end.

Definition getSectorPerformance : M jsval :=
  try_catch
    (let cacheKey := "sector_performance" in
     cachedSectors <- getMarketData cacheKey ;;
     if Js.truthy cachedSectors then ret cachedSectors
     else
       sectors <- sector_loop sectorETFs [] ;;
       setMarketData cacheKey (JObj sectors) 300 ;;
       ret (JObj sectors))
    (fun error =>
       logger Error "Error fetching sector performance:" (Some error) ;;
       throw ("Failed to fetch sector performance: " +:+ error)).

(** The object [getCompanyInfo] builds from the provider's answer at time
    [t]. *)
Definition company_data (info : jsval) (t : Z) : jsval :=
  JObj [ ("symbol", Js.get info "symbol");
         ("name", Js.or (Js.get info "longName") (Js.get info "shortName"));
         ("sector", Js.get info "sector");
         ("industry", Js.get info "industry");
         ("marketCap", Js.get info "marketCap");
         ("employees", Js.get info "fullTimeEmployees");
         ("website", Js.get info "website");
         ("description", Js.get info "longBusinessSummary");
         ("country", Js.get info "country");
         ("currency", Js.get info "currency");
         ("exchange", Js.get info "exchange");
         ("timestamp", JStr (toISOString E t)) ].

Definition getCompanyInfo (symbol : string) : M jsval :=
  try_catch
    (let cacheKey := "company_info:" +:+ symbol in
     cachedInfo <- getMarketData cacheKey ;;
     if Js.truthy cachedInfo then ret cachedInfo
     else
       logger Info ("Fetching company info for " +:+ symbol) None ;;
       info <- lift (yahoo_info E symbol) ;;
       if negb (Js.truthy info)
       then throw ("No company info found for symbol: " +:+ symbol)
       else
         w <- get_world ;;
         let companyInfo := company_data info (now w) in
         setMarketData cacheKey companyInfo 3600 ;;
         ret companyInfo)
    (fun error =>
       logger Error ("Error fetching company info for " +:+ symbol +:+ ":") (Some error) ;;
       throw ("Failed to fetch company info for " +:+ symbol +:+ ": " +:+ error)).

(** [INSERT INTO stocks ... ON CONFLICT (symbol) DO UPDATE SET ...];
    [symbol] is VARCHAR(10). *)
Definition upsert_stock (symbol : string) (name sector industry marketCap : jsval)
  : statement unit :=
  fun t d =>
    if (10 <? String.length symbol)%nat
    then Throw "value too long for type character varying(10)"
    else Ok (tt, with_stocks
                   (<[symbol := {| st_company_name := name; st_sector := sector;
                                   st_industry := industry; st_market_cap := marketCap;
                                   st_updated_at := t |}]> (stocks d)) d).

Fixpoint upsert_price_row (r : price_row) (rows : list price_row) : list price_row :=
  match rows with
  | [] => [r]
  | r' :: rest =>
      if Js.eqb (pr_time r') (pr_time r) && String.eqb (pr_symbol r') (pr_symbol r)
      then r :: rest
      else r' :: upsert_price_row r rest
  end.

(** [INSERT INTO stock_prices ... ON CONFLICT (time, symbol) DO UPDATE SET ...];
    [time] is NOT NULL, [symbol] is VARCHAR(10). *)
Definition upsert_price (symbol : string) (row : jsval) : statement unit :=
  fun _ d =>
    if (10 <? String.length symbol)%nat
    then Throw "value too long for type character varying(10)"
    else
      match Js.get row "time" with
      | JUndefined | JNull =>
          Throw "null value in column time violates not-null constraint"
      | time =>
          Ok (tt, with_stock_prices
                    (upsert_price_row
                       {| pr_time := time; pr_symbol := symbol;
                          pr_open := Js.get row "open"; pr_high := Js.get row "high";
                          pr_low := Js.get row "low"; pr_close := Js.get row "close";
                          pr_volume := Js.get row "volume" |}
                       (stock_prices d)) d)
      end.

(** [for (const row of data) { await client.query(priceQuery, [...]) }] *)
Fixpoint price_loop (symbol : string) (data : list jsval) : M unit :=
  match data with
  | [] => ret tt
  | row :: rest =>
      client_query (upsert_price symbol row) ;;
      price_loop symbol rest
  end.

Definition storeStockData (symbol : string) (data : list jsval) : M unit :=
  try_catch
    (pool_connect ;;
     try_finally
       (try_catch
          (client_BEGIN ;;
           companyInfo <- getCompanyInfo symbol ;;
           client_query (upsert_stock symbol
                           (Js.get companyInfo "name") (Js.get companyInfo "sector")
                           (Js.get companyInfo "industry")
                           (Js.get companyInfo "marketCap")) ;;
           price_loop symbol data ;;
           client_COMMIT ;;
           logger Debug ("Stored " +:+ pretty (length data) +:+ " data points for " +:+ symbol)
                  None)
          (fun error =>
             client_ROLLBACK ;;
             throw error))
       client_release)
    (fun error =>
       logger Error ("Error storing stock data for " +:+ symbol +:+ ":") (Some error)).

(** [new Date(Date.now() - this.getPeriodInDays(period) * 24 * 60 * 60 * 1000)],
    in milliseconds; not a number when the day count is not one. *)
Definition period1 (t : Z) (days : jsval) : jsval :=
  match days with
  | JNum n => JNum (t * 1000 - n * 24 * 60 * 60 * 1000)
  | _ => JNaN
  end.

(** [row => ({ time: row.Date, open: parseFloat(row.Open), ... })]; reading a
    property of null or undefined throws. *)
Definition transform_row (row : jsval) : outcome jsval :=
  match row with
  | JUndefined | JNull => Throw "Cannot read properties of undefined (reading 'Date')"
  | _ =>
      Ok (JObj [ ("time", Js.get row "Date");
                 ("open", parseFloat E (Js.get row "Open"));
                 ("high", parseFloat E (Js.get row "High"));
                 ("low", parseFloat E (Js.get row "Low"));
                 ("close", parseFloat E (Js.get row "Close"));
                 ("volume", parseInt E (Js.get row "Volume")) ])
  end.

Fixpoint transform_rows (rows : list jsval) : outcome (list jsval) :=
  match rows with
  | [] => Ok []
  | row :: rest =>
      match transform_row row with
      | Throw e => Throw e
      | Ok r =>
          match transform_rows rest with
          | Throw e => Throw e
          | Ok rs => Ok (r :: rs)
          end
      end
  end.

Definition cacheTTL : Z := 300.

Definition getStockData (symbol period interval : string) : M jsval :=
  try_catch
    (let cacheKey := "stock_data:" +:+ symbol +:+ ":" +:+ period +:+ ":" +:+ interval in
     cachedData <- getMarketData cacheKey ;;
     if Js.truthy cachedData then
       logger Debug ("Cache hit for stock data: " +:+ symbol) None ;;
       ret cachedData
     else
       logger Info ("Fetching stock data for " +:+ symbol +:+ " from Yahoo Finance") None ;;
       w <- get_world ;;
       data <- lift (yahoo_historical E symbol
                       (period1 (now w) (getPeriodInDays period)) interval) ;;
       match data with
       | JArr ((_ :: _) as rows) =>
           transformedData <- lift (transform_rows rows) ;;
           setMarketData cacheKey (JArr transformedData) cacheTTL ;;
           storeStockData symbol transformedData ;;
           ret (JArr transformedData)
       | JArr [] => throw ("No data found for symbol: " +:+ symbol)
       | _ =>
           if negb (Js.truthy data) || Js.eqb (Js.get data "length") (JNum 0)
           then throw ("No data found for symbol: " +:+ symbol)
           else throw "data.map is not a function"
       end)
    (fun error =>
       logger Error ("Error fetching stock data for " +:+ symbol +:+ ":") (Some error) ;;
       throw ("Failed to fetch stock data for " +:+ symbol +:+ ": " +:+ error)).

(** ** api/routes/market.js: GET /stock/:symbol *)








Variable L : Lib.



(** ** api/routes/auth.js: POST /register *)

(** [bcrypt.hash(password, 12)]: the salt is a fresh random draw. *)
Definition hashPassword (password : string) : M string :=
  w <- get_world ;;
  modify (with_rng_ops (S (rng_ops w))) ;;
  ret (bcrypt_hash L password (rng_ops w)).

(** [INSERT INTO users (email, password_hash, first_name, last_name)
     VALUES ($1, $2, $3, $4)
     RETURNING id, email, first_name, last_name, created_at]:
    [id] is the primary key and gets the default [id], [email] is UNIQUE,
    the texts are VARCHAR(255) and VARCHAR(100), [is_active] defaults to
    true and [created_at] to NOW(). *)
Definition insert_user (id email hash firstName lastName : string)
  : statement (list user_row) :=
  fun t d =>
    if (255 <? String.length email)%nat || (255 <? String.length hash)%nat ||
       (100 <? String.length firstName)%nat || (100 <? String.length lastName)%nat
    then Throw "value too long for type character varying"
    else if decide (Exists (fun u => u_id u = id \/ u_email u = email) (users d))
    then Throw "duplicate key value violates unique constraint"
    else
      let row := {| u_id := id; u_email := email; u_password_hash := hash;
                    u_first_name := firstName; u_last_name := lastName;
                    u_is_active := true; u_created_at := t |} in
      Ok ([row], with_users (users d ++ [row]) d).

(** [.isLength({ min: 2, max: 50 })] *)
Definition name_length_ok (name : string) : bool :=
  (2 <=? String.length name)%nat && (String.length name <=? 50)%nat.

(** [registerValidation] on the body; [firstName] and [lastName] are the
    two body fields that only this route reads. *)
Definition registerValidation (firstName lastName : string) (req : request) : M step :=
  ret (Next (with_validation (normalizeEmail E (body_email req))
               ((if isEmail E (body_email req) then []
                 else ["Please provide a valid email address"]) ++
                (if (8 <=? String.length (body_password req))%nat then []
                 else ["Password must be at least 8 characters long"]) ++
                (if password_pattern L (body_password req) then []
                 else ["Password must contain at least one uppercase letter, one lowercase letter, one number, and one special character"]) ++
                (if name_length_ok (trim L firstName) then []
                 else ["First name must be between 2 and 50 characters"]) ++
                (if name_length_ok (trim L lastName) then []
                 else ["Last name must be between 2 and 50 characters"]))
               req)).

Definition user_exists : response :=
  res_json 409 (failure "User already exists" "An account with this email already exists").

(** The handler of the register route; [firstName] and [lastName] are
    [req.body.firstName] and [req.body.lastName] as the validation chain left
    them.  The row that comes back has [first_name] and [last_name], so
    [user.firstName] and [user.lastName] are undefined. *)
Definition register_handler (firstName lastName : string) (req : request) : M response :=
  try_catch
    (match validation_errors req with
     | _ :: _ => ret (validation_failed req)
     | [] =>
         let email := body_email req in
         let password := body_password req in
         existingUserResult <- executeQuery (select_user_by_email email) ;;
         match existingUserResult with
         | _ :: _ => ret user_exists
         | [] =>
             passwordHash <- hashPassword password ;;
             w <- get_world ;;
             createUserResult <-
               executeQuery (insert_user (gen_random_uuid L (db_ops w)) email passwordHash
                               firstName lastName) ;;
             match createUserResult with
             | [] => throw "Cannot read properties of undefined (reading 'id')"
             | row :: _ =>
                 sid <- generateSessionId ;;
                 tokens <- generateTokens (u_id row) sid ;;
                 setSession sid
                   (JObj [ ("userId", JStr (u_id row)); ("email", JStr (u_email row));
                           ("firstName", JUndefined); ("lastName", JUndefined) ]) ;;
                 executeQuery (insert_refresh_token (u_id row) sid) ;;
                 logger Info ("New user registered: " +:+ email) None ;;
                 w <- get_world ;;
                 ret (res_json 201
                        (JObj [ ("success", JBool true);
                                ("message", JStr "User registered successfully");
                                ("data",
                                 JObj [ ("user",
                                         JObj [ ("id", JStr (u_id row));
                                                ("email", JStr (u_email row));
                                                ("firstName", JUndefined);
                                                ("lastName", JUndefined) ]);
                                        ("tokens",
                                         JObj [ ("accessToken", JToken (fst tokens));
                                                ("refreshToken", JToken (snd tokens)) ]) ]);
                                ("timestamp", JStr (toISOString E (now w))) ]))
             end
         end
     end)
    (fun error =>
       logger Error "Registration error:" (Some error) ;;
       ret (res_json 500
              (failure "Registration failed"
                       "Internal server error during registration"))).

(** [router.post('/register', authRateLimit, registerValidation, handler)] *)
Definition POST_register (firstName lastName : string) (h : http_request) : M response :=
  run_chain [authRateLimit; registerValidation firstName lastName]
    (register_handler (trim L firstName) (trim L lastName)) (express_req h).

End Backend.

(** * Vocabulary of the properties *)

Local Open Scope list_scope.

(** What [getCache] returns: null when the command fails, the key is absent
    or expired, or the text is empty; the parsed text otherwise. *)
Definition cache_read (E : Env) (w : World) (key : string) : jsval :=
  if redis_fault E (redis_ops w) then JNull
  else match redis_lookup w key with
       | Some e => if stored_truthy (value e) then parse_stored (value e) else JNull
       | None => JNull
       end.

(** A session as [setSession] writes it: a live key holding an object. *)
Definition has_session (w : World) (sid : string) : Prop :=
  exists e fields,
    redis_lookup w ("session:" +:+ sid) = Some e /\ value e = Json (JObj fields).

(** [userResult.rows[0]] of the lookup by id. *)
Definition user_by_id (d : database) (uid : string) : option user_row :=
  head (filter (fun u => u_id u = uid) (users d)).

Definition invalid_token : response :=
  res_json 401 (failure "Invalid token" "Token is invalid or expired").

Definition invalid_session : response :=
  res_json 401 (failure "Invalid session" "Session expired or invalid").

Definition user_inactive : response :=
  res_json 401 (failure "User not found or inactive"
                        "User account is inactive or deleted").


(** ** A concrete deployment

    A healthy environment (no Redis or Postgres failures), two users, and the
    worlds reached from an empty cache; used to instantiate the general
    statements. *)
Module Scenario.

Definition quote_of (symbol : string) : jsval :=
  JObj [ ("symbol", JStr symbol); ("regularMarketPrice", JNum 100);
         ("regularMarketChange", JNum 2); ("regularMarketChangePercent", JNum 2) ].

Definition env : Env :=
  {| JWT_SECRET := "access-secret";
     JWT_REFRESH_SECRET := "refresh-secret";
     redis_fault := fun _ => false;
     db_fault := fun _ => false;
     randomBytes := fun n => "sid" +:+ pretty n;
     bcrypt_compare := fun password hash => String.eqb ("bcrypt:" +:+ password) hash;
     isEmail := fun _ => true;
     normalizeEmail := fun email => email;
     toISOString := fun t => pretty t;
     parseFloat := fun v => v;
     parseInt := fun v => v;
     yahoo_quote := fun symbol =>
       if String.eqb symbol "XLE" then Throw "Too Many Requests"
       else Ok (quote_of symbol);
     yahoo_historical := fun _ _ _ =>
       Ok (JArr [ JObj [ ("Date", JNum 946684800); ("Open", JNum 10); ("High", JNum 12);
                         ("Low", JNum 9); ("Close", JNum 11); ("Volume", JNum 500) ] ]);
     yahoo_info := fun symbol =>
       Ok (JObj [ ("symbol", JStr symbol); ("longName", JStr "Acme Corporation");
                  ("sector", JStr "Technology") ]) |}.

Definition lib : Lib :=
  {| bcrypt_hash := fun password _ => "bcrypt:" +:+ password;
     gen_random_uuid := fun n => "uuid" +:+ pretty n;
     trim := fun s => s;
     password_pattern := fun _ => true;
     token_length := fun _ => 180 |}.

Definition alice : user_row :=
  {| u_id := "u1"; u_email := "a@b.com"; u_password_hash := "bcrypt:Secur3!Pass";
     u_first_name := "A"; u_last_name := "B"; u_is_active := true; u_created_at := 0 |}.

Definition carol : user_row :=
  {| u_id := "u2"; u_email := "c@d.com"; u_password_hash := "bcrypt:Passw0rd!";
     u_first_name := "C"; u_last_name := "D"; u_is_active := false; u_created_at := 0 |}.

Definition tables : database :=
  {| users := [alice; carol]; refresh_tokens := []; stocks := ∅; stock_prices := [] |}.

Definition w0 : World :=
  {| now := 1000; redis := ∅; redis_ops := 0; db := tables; db_txn := None;
     db_ops := 0; rng_ops := 0; bcrypt_compares := 0; log := [] |}.

Definition anonymous (ip : string) : http_request :=
  {| h_ip := ip; h_authorization := None; h_email := EmptyString;
     h_password := EmptyString; h_refreshToken := Malformed EmptyString |}.

Definition credentials (ip email password : string) : http_request :=
  {| h_ip := ip; h_authorization := None; h_email := email;
     h_password := password; h_refreshToken := Malformed EmptyString |}.

Definition bearing (tok : token) : http_request :=
  {| h_ip := "203.0.113.7"; h_authorization := Some (Bearer tok);
     h_email := EmptyString; h_password := EmptyString;
     h_refreshToken := Malformed EmptyString |}.

Definition presenting (tok : token) : http_request :=
  {| h_ip := "203.0.113.7"; h_authorization := None; h_email := EmptyString;
     h_password := EmptyString; h_refreshToken := tok |}.

(** Alice logs in at time 1000. *)
Definition alice_login : http_request :=
  credentials "203.0.113.7" "a@b.com" "Secur3!Pass".

Definition w1 : World := snd (POST_login env alice_login w0).

Definition access_token : token :=
  Signed "access-secret" {| userId := "u1"; sessionId := "sid0" |} 1900.

Definition refresh_token : token :=
  Signed "refresh-secret" {| userId := "u1"; sessionId := "sid0" |} 605800.

(** A world in which the deactivated user still has a session. *)
Definition carol_token : token :=
  Signed "access-secret" {| userId := "u2"; sessionId := "sid9" |} 1900.

Definition w_carol : World :=
  with_redis (<["session:sid9" :=
                 {| value := Json (JObj [ ("userId", JStr "u2") ]);
                    expires := Some 87400 |}]> (redis w0)) w0.

(** A protected route whose handler only says who is calling. *)
Definition whoami (req : request) : M response :=
  ret (res_json 200
         (JObj [ ("success", JBool true);
                 ("user", match user req with
                          | Some u => JStr (ru_id u)
                          | None => JNull
                          end) ])).

End Scenario.

(** The answer of the profile route to a request without a bearer token. *)
Definition authentication_required : response :=
  res_json 401 (failure "Authentication required" "Access token required").

(** The access token and the refresh token [generateTokens] mints in [w]. *)
Definition issued (E : Env) (uid sid : string) (w : World) : token * token :=
  match fst (generateTokens E uid sid w) with
  | Ok tokens => tokens
  | Throw _ => (Malformed EmptyString, Malformed EmptyString)
  end.

(** [userResult.rows[0]] of the lookup by email. *)
Definition user_by_email (d : database) (email : string) : option user_row :=
  head (filter (fun u => u_email u = email) (users d)).

(** The 200 answer of the profile route for a user row. *)
Definition profile_of (E : Env) (w : World) (row : user_row) : response :=
  res_json 200
    (JObj [ ("success", JBool true);
            ("data",
             JObj [ ("user",
                     JObj [ ("id", JStr (u_id row)); ("email", JStr (u_email row));
                            ("createdAt", JNum (u_created_at row)) ]) ]);
            ("timestamp", JStr (toISOString E (now w))) ]).

(** The 200 answer of the refresh route: a new access token and nothing
    else. *)
Definition refreshed (E : Env) (w : World) (p : jwt_payload) : response :=
  res_json 200
    (JObj [ ("success", JBool true);
            ("message", JStr "Token refreshed successfully");
            ("data",
             JObj [ ("accessToken",
                     JToken (Signed (JWT_SECRET E)
                               {| userId := userId p; sessionId := sessionId p |}
                               (now w + 15 * 60))) ]);
            ("timestamp", JStr (toISOString E (now w))) ]).

Definition invalid_refresh_token (msg : string) : response :=
  res_json 401 (failure "Invalid refresh token" msg).

(** The counter key of a client address. *)
Definition rate_key (ip : string) : string := "auth_rate_limit:" +:+ ip.

(** A login body that passes [loginValidation]. *)
Definition well_formed_login (E : Env) (h : http_request) : Prop :=
  isEmail E (h_email h) = true /\ h_password h <> EmptyString.

(** [w'] differs from [w] at most in the cache, the Redis command counter
    and the log. *)
Definition cache_only (w w' : World) : Prop :=
  now w' = now w /\ db w' = db w /\ db_txn w' = db_txn w /\ db_ops w' = db_ops w /\
  rng_ops w' = rng_ops w /\ bcrypt_compares w' = bcrypt_compares w.

(** The answer of the logout route. *)
Definition logged_out (E : Env) (w : World) : response :=
  res_json 200
    (JObj [ ("success", JBool true); ("message", JStr "Logout successful");
            ("timestamp", JStr (toISOString E (now w))) ]).

(** [req.user] as the gate attaches it for a verified payload. *)
Definition attached (p : jwt_payload) (row : user_row) : req_user :=
  {| ru_id := userId p; ru_sessionId := sessionId p; ru_email := u_email row;
     ru_firstName := u_first_name row; ru_lastName := u_last_name row |}.

(** ** Sequences of requests *)

(** The world when the clock shows [t]. *)
Definition at_time (t : Z) (w : World) : World :=
  {| now := t; redis := redis w; redis_ops := redis_ops w; db := db w;
     db_txn := db_txn w; db_ops := db_ops w; rng_ops := rng_ops w;
     bcrypt_compares := bcrypt_compares w; log := log w |}.

(** Requests served one after the other by one route, each at its arrival
    time; the answers in order, and the final world. *)
Fixpoint serve {R} (route : R -> M response) (reqs : list (Z * R))
    (w : World) : list (outcome response) * World :=
  match reqs with
  | [] => ([], w)
  | (t, h) :: rest =>
      let (r, w') := route h (at_time t w) in
      let (rs, w'') := serve route rest w' in
      (r :: rs, w'')
  end.

(** The world in which the [i]-th request of a sequence arrives: the one the
    requests before it have left. *)
Definition world_before {R} (route : R -> M response) (reqs : list (Z * R)) (i : nat)
    (w : World) : World :=
  snd (serve route (take i reqs) w).

(** An authentication attempt: a login, or a registration with the two body
    fields only that route reads. *)
Inductive auth_request : Type :=
  | LoginRequest (h : http_request)
  | RegisterRequest (firstName lastName : string) (h : http_request).

Definition sender (a : auth_request) : http_request :=
  match a with
  | LoginRequest h => h
  | RegisterRequest _ _ h => h
  end.

(** The two routes mounted behind [authRateLimit]. *)
Definition auth_route (E : Env) (L : Lib) (a : auth_request) : M response :=
  match a with
  | LoginRequest h => POST_login E h
  | RegisterRequest firstName lastName h => POST_register E L firstName lastName h
  end.

(** How many of the attempts come from [ip]. *)
Definition attempts_from (ip : string) (reqs : list (Z * auth_request)) : nat :=
  length (filter (fun r => h_ip (sender (snd r)) = ip) reqs).

(** A route mounted behind the rate-limit gate:
    [router.post(path, authRateLimit, ...rest)]. *)
Definition gated (E : Env) (rest : request -> M response) (h : http_request)
  : M response :=
  run_chain [authRateLimit E] rest (express_req h).

(** What is mounted behind the gate on the login route and on the register
    route. *)
Definition login_chain (E : Env) : request -> M response :=
  run_chain [loginValidation E] (login_handler E).

Definition register_chain (E : Env) (L : Lib) (firstName lastName : string)
  : request -> M response :=
  run_chain [registerValidation E L firstName lastName]
    (register_handler E L (trim L firstName) (trim L lastName)).

Definition behind_gate (E : Env) (L : Lib) (a : auth_request) : request -> M response :=
  match a with
  | LoginRequest _ => login_chain E
  | RegisterRequest firstName lastName _ => register_chain E L firstName lastName
  end.

(** The gate lets the attempt through: [authRateLimit] calls [next()], and
    the answer and the world are those of what is mounted behind it, run
    after the gate; the answer is not the gate's 429. *)
Definition passes_gate (E : Env) (L : Lib) (a : auth_request) (w : World) : Prop :=
  fst (authRateLimit E (express_req (sender a)) w) = Ok (Next (express_req (sender a))) /\
  auth_route E L a w =
    behind_gate E L a (express_req (sender a))
      (snd (authRateLimit E (express_req (sender a)) w)) /\
  fst (auth_route E L a w) <> Ok rate_limited.

(** The gate answers the attempt with 429 and nothing behind it runs: no
    password is compared or hashed and no database call is made. *)
Definition rejected_by_gate (E : Env) (L : Lib) (a : auth_request) (w : World) : Prop :=
  fst (authRateLimit E (express_req (sender a)) w) = Ok (Respond rate_limited) /\
  auth_route E L a w =
    (Ok rate_limited, snd (authRateLimit E (express_req (sender a)) w)) /\
  bcrypt_compares (snd (auth_route E L a w)) = bcrypt_compares w /\
  rng_ops (snd (auth_route E L a w)) = rng_ops w /\
  db (snd (auth_route E L a w)) = db w /\
  db_ops (snd (auth_route E L a w)) = db_ops w.

(** Every answer of a computation satisfies [P]. *)
Definition answers_only (P : response -> Prop) (m : M response) : Prop :=
  forall w r, fst (m w) = Ok r -> P r.

(** ** Frames

    A computation preserves a relation between the world before and the world
    after when every run of it does. *)
Definition preserves {A} (P : World -> World -> Prop) (m : M A) : Prop :=
  forall w, P w (snd (m w)).

(** The value under one Redis key is left alone. *)
Definition keeps_key (k : string) (w w' : World) : Prop :=
  redis w' !! k = redis w !! k.

(** A computation that always returns. *)
Definition returns {A} (m : M A) : Prop :=
  forall w, exists a, fst (m w) = Ok a.

(** The counter of [ip] after [c] attempts in the window that opened at or
    after [t0]: no key before the first attempt, then the count with the
    expiry set by the first attempt. *)
Definition counter_is (ip : string) (t0 : Z) (c : nat) (w : World) : Prop :=
  match c with
  | O => redis w !! rate_key ip = None
  | S _ =>
      exists t1, t0 <= t1 /\
        redis w !! rate_key ip =
        Some {| value := Int (Z.of_nat c); expires := Some (t1 + 900) |}
  end.

(** Seven attempts from one address, one second apart: wrong-password
    logins and registrations, then logins with the right password. *)
Definition seven_attempts : list (Z * auth_request) :=
  [ (1000, LoginRequest (Scenario.credentials "203.0.113.7" "a@b.com" "wrong-password"));
    (1001, RegisterRequest "Eve" "Doe"
             (Scenario.credentials "203.0.113.7" "e@f.com" "Secur3!Pass"));
    (1002, LoginRequest (Scenario.credentials "203.0.113.7" "a@b.com" "wrong-password"));
    (1003, RegisterRequest "Eve" "Doe"
             (Scenario.credentials "203.0.113.7" "e@f.com" "Secur3!Pass"));
    (1004, LoginRequest (Scenario.credentials "203.0.113.7" "a@b.com" "Secur3!Pass"));
    (1005, LoginRequest (Scenario.credentials "203.0.113.7" "a@b.com" "Secur3!Pass"));
    (1006, RegisterRequest "Dan" "Roe"
             (Scenario.credentials "203.0.113.7" "g@h.com" "Secur3!Pass")) ].

(** ** Market data *)

(** What the provider gives for a quote: the quote, or the message of the
    failure ([yahooFinance.quote] throwing, or answering nothing). *)
Definition upstream_quote (E : Env) (symbol : string) : outcome jsval :=
  match yahoo_quote E symbol with
  | Throw e => Throw e
  | Ok q =>
      if Js.truthy q then Ok q
      else Throw ("No quote found for symbol: " +:+ symbol)
  end.

(** What [getStockQuote] does on a cache miss. *)
Definition fetched_quote (E : Env) (t : Z) (symbol : string) : outcome jsval :=
  match upstream_quote E symbol with
  | Ok q => Ok (quote_data E q t)
  | Throw e => Throw ("Failed to fetch quote for " +:+ symbol +:+ ": " +:+ e)
  end.

(** The outcome of [getStockQuote]: the cached quote when the read finds
    one, else what the provider gives. *)
Definition quote_outcome (E : Env) (w : World) (symbol : string) : outcome jsval :=
  let cached := cache_read E w ("market:quote:" +:+ symbol) in
  if Js.truthy cached then Ok cached else fetched_quote E (now w) symbol.

(** The quote a cache read can serve for [symbol], if any. *)
Definition cached_quote (w : World) (symbol : string) : option jsval :=
  match redis_lookup w ("market:quote:" +:+ symbol) with
  | Some e =>
      if stored_truthy (value e) && Js.truthy (parse_stored (value e))
      then Some (parse_stored (value e))
      else None
  | None => None
  end.

(** The entry of the sector map for an ETF whose quote is fetched from the
    provider at time [t]. *)
Definition fetched_entry (E : Env) (t : Z) (etf sectorName : string) : jsval :=
  match fetched_quote E t etf with
  | Ok q => sector_entry etf sectorName q
  | Throw e => error_marker e
  end.

(** An entry of the sector map is right for an ETF when it is the fetched
    one, or is built from a quote the cache held. *)
Definition entry_of (E : Env) (w : World) (pair : string * string)
    (field : string * jsval) : Prop :=
  fst field = snd pair /\
  (snd field = fetched_entry E (now w) (fst pair) (snd pair) \/
   exists c, cached_quote w (fst pair) = Some c /\
             snd field = sector_entry (fst pair) (snd pair) c).

Definition is_error_marker (v : jsval) : bool :=
  match v with
  | JObj [ ("error", JStr _) ] => true
  | _ => false
  end.

Definition is_sector_entry (v : jsval) : bool :=
  match v with
  | JObj [ ("etf", JStr _); ("name", JStr _); ("price", _); ("change", _);
           ("changePercent", _) ] => true
  | _ => false
  end.

(** The provider fails for this ETF. *)
Definition upstream_fails (E : Env) (pair : string * string) : bool :=
  match upstream_quote E (fst pair) with
  | Ok _ => false
  | Throw _ => true
  end.

(** ** Persistence of historical bars *)

(** The price upserts of a batch, in order, on tables [d]. *)
Fixpoint apply_prices (symbol : string) (data : list jsval) (t : Z) (d : database)
  : outcome database :=
  match data with
  | [] => Ok d
  | row :: rest =>
      match upsert_price symbol row t d with
      | Ok (_, d') => apply_prices symbol rest t d'
      | Throw e => Throw e
      end
  end.

(** The whole batch of [storeStockData]: the reference-table upsert with the
    company information [info], then every price upsert. *)
Definition apply_batch (symbol : string) (info : jsval) (data : list jsval) (t : Z)
    (d : database) : outcome database :=
  match upsert_stock symbol (Js.get info "name") (Js.get info "sector")
          (Js.get info "industry") (Js.get info "marketCap") t d with
  | Ok (_, d') => apply_prices symbol data t d'
  | Throw e => Throw e
  end.

(** The log ends with the error [storeStockData] reports. *)
Definition store_failure_logged (symbol : string) (w : World) : Prop :=
  exists l e,
    log w = l ++ [ {| level := Error;
                      text := "Error storing stock data for " +:+ symbol +:+ ":";
                      detail := Some e |} ].

(** The same environment with another pattern of database failures. *)
Definition with_db_fault (f : nat -> bool) (E : Env) : Env :=
  {| JWT_SECRET := JWT_SECRET E; JWT_REFRESH_SECRET := JWT_REFRESH_SECRET E;
     redis_fault := redis_fault E; db_fault := f; randomBytes := randomBytes E;
     bcrypt_compare := bcrypt_compare E; isEmail := isEmail E;
     normalizeEmail := normalizeEmail E; toISOString := toISOString E;
     parseFloat := parseFloat E; parseInt := parseInt E;
     yahoo_quote := yahoo_quote E; yahoo_historical := yahoo_historical E;
     yahoo_info := yahoo_info E |}.

(** The same environment with another pattern of Redis failures. *)
Definition with_redis_fault (f : nat -> bool) (E : Env) : Env :=
  {| JWT_SECRET := JWT_SECRET E; JWT_REFRESH_SECRET := JWT_REFRESH_SECRET E;
     redis_fault := f; db_fault := db_fault E; randomBytes := randomBytes E;
     bcrypt_compare := bcrypt_compare E; isEmail := isEmail E;
     normalizeEmail := normalizeEmail E; toISOString := toISOString E;
     parseFloat := parseFloat E; parseInt := parseInt E;
     yahoo_quote := yahoo_quote E; yahoo_historical := yahoo_historical E;
     yahoo_info := yahoo_info E |}.

(** The log ends with an error report carrying the message [e]. *)
Definition error_logged (e : string) (w : World) : Prop :=
  exists l t, log w = l ++ [ {| level := Error; text := t; detail := Some e |} ].

(** The same world with another database behind it. *)
Definition with_database (d : database) (txn : option database) (ops : nat)
    (w : World) : World :=
  with_db_ops ops (with_db_txn txn (with_db d w)).

(** What [getStockData] returns, read off the cache and the provider
    alone. *)
Definition stock_data_outcome (E : Env) (w : World) (symbol period interval : string)
  : outcome jsval :=
  let cached :=
    cache_read E w ("market:stock_data:" +:+ symbol +:+ ":" +:+ period +:+ ":" +:+ interval) in
  let failed e := Throw ("Failed to fetch stock data for " +:+ symbol +:+ ": " +:+ e) in
  if Js.truthy cached then Ok cached
  else
    match yahoo_historical E symbol (period1 (now w) (getPeriodInDays period)) interval with
    | Throw e => failed e
    | Ok (JArr ((_ :: _) as rows)) =>
        match transform_rows E rows with
        | Ok transformed => Ok (JArr transformed)
        | Throw e => failed e
        end
    | Ok (JArr []) => failed ("No data found for symbol: " +:+ symbol)
    | Ok data =>
        if negb (Js.truthy data) || Js.eqb (Js.get data "length") (JNum 0)
        then failed ("No data found for symbol: " +:+ symbol)
        else failed "data.map is not a function"
    end.




(** What the provider gives for the company information. *)
Definition upstream_info (E : Env) (symbol : string) : outcome jsval :=
  match yahoo_info E symbol with
  | Throw e => Throw e
  | Ok i =>
      if Js.truthy i then Ok i
      else Throw ("No company info found for symbol: " +:+ symbol)
  end.

(** The outcome of [getCompanyInfo]: the cached object when the read finds
    one, else what the provider gives. *)
Definition company_outcome (E : Env) (w : World) (symbol : string) : outcome jsval :=
  let cached := cache_read E w ("market:company_info:" +:+ symbol) in
  if Js.truthy cached then Ok cached
  else
    match upstream_info E symbol with
    | Ok i => Ok (company_data E i (now w))
    | Throw e => Throw ("Failed to fetch company info for " +:+ symbol +:+ ": " +:+ e)
    end.

(** The committed tables of [w'] are those of [w] with the whole batch
    applied. *)
Definition batch_committed (E : Env) (symbol : string) (data : list jsval)
    (w w' : World) : Prop :=
  exists info d',
    company_outcome E w symbol = Ok info /\
    apply_batch symbol info data (now w) (db w) = Ok d' /\
    db w' = d'.

(** The pool and client calls [storeStockData] issues when nothing fails:
    connect, BEGIN, the statement for the reference table, one statement per
    bar, COMMIT. *)
Definition store_calls (data : list jsval) : nat := 4 + length data.

(** Nothing fails in [storeStockData]: none of its calls, nor the company
    lookup, nor a statement of the batch. *)
Definition batch_succeeds (E : Env) (symbol : string) (data : list jsval) (w : World)
  : Prop :=
  (forall k, (k < store_calls data)%nat -> db_fault E (db_ops w + k)%nat = false) /\
  exists info d',
    company_outcome E w symbol = Ok info /\
    apply_batch symbol info data (now w) (db w) = Ok d'.

(** The log ends with the report of a stored batch. *)
Definition store_success_logged (symbol : string) (data : list jsval) (w : World)
  : Prop :=
  exists l,
    log w = l ++ [ {| level := Debug;
                      text := "Stored " +:+ pretty (length data) +:+
                              " data points for " +:+ symbol;
                      detail := None |} ].

(** Two bars of one day each, and the tables of the deployment after they
    are stored for AAPL at time 1000. *)
Definition two_bars : list jsval :=
  [ JObj [ ("time", JNum 946684800); ("open", JNum 10); ("high", JNum 12);
           ("low", JNum 9); ("close", JNum 11); ("volume", JNum 500) ];
    JObj [ ("time", JNum 946771200); ("open", JNum 11); ("high", JNum 13);
           ("low", JNum 10); ("close", JNum 12); ("volume", JNum 700) ] ].

Definition tables_with_two_bars : database :=
  {| users := users Scenario.tables;
     refresh_tokens := refresh_tokens Scenario.tables;
     stocks := <["AAPL" := {| st_company_name := JStr "Acme Corporation";
                              st_sector := JStr "Technology";
                              st_industry := JUndefined;
                              st_market_cap := JUndefined;
                              st_updated_at := 1000 |}]> ∅;
     stock_prices :=
       [ {| pr_time := JNum 946684800; pr_symbol := "AAPL"; pr_open := JNum 10;
            pr_high := JNum 12; pr_low := JNum 9; pr_close := JNum 11;
            pr_volume := JNum 500 |};
         {| pr_time := JNum 946771200; pr_symbol := "AAPL"; pr_open := JNum 11;
            pr_high := JNum 13; pr_low := JNum 10; pr_close := JNum 12;
            pr_volume := JNum 700 |} ] |}.

(** A batch whose second bar has no time: its statement violates the
    not-null constraint. *)
Definition bars_with_bad_second : list jsval :=
  [ JObj [ ("time", JNum 946684800); ("open", JNum 10); ("high", JNum 12);
           ("low", JNum 9); ("close", JNum 11); ("volume", JNum 500) ];
    JObj [ ("open", JNum 11); ("high", JNum 13); ("low", JNum 10);
           ("close", JNum 12); ("volume", JNum 700) ] ].
(** * Properties *)

(** ** getPeriodInDays *)

Lemma getPeriodInDays_enumerated :
  map getPeriodInDays enumerated_periods =
  map JNum [1; 5; 30; 90; 180; 365; 730; 1825; 3650; 365; 3650].
Proof. reflexivity. Qed.




(** ** Running the primitives *)

Ltac wsimpl :=
  cbn [now redis redis_ops db db_txn db_ops rng_ops bcrypt_compares log
       with_redis with_redis_ops with_db with_db_txn with_db_ops with_rng_ops
       with_bcrypt_compares with_log fst snd] in *.

Ltac case_if :=
  match goal with
  | |- context [if ?c then _ else _] => destruct c eqn:?
  end.

Ltac case_scrutinee :=
  match goal with
  | |- context [match ?x with _ => _ end] => destruct x eqn:?
  end.

Ltac mcrush :=
  repeat (wsimpl; simplify_eq; first [reflexivity | case_if | case_scrutinee]).

(** Case analysis on what a run branches on: failures of I/O calls, the
    header, the token, comparisons, and query results. *)
Ltac case_atom :=
  match goal with
  | |- context [match ?t with Signed _ _ _ => _ | Malformed _ => _ end] =>
      destruct t eqn:?
  | |- context [db_fault ?E ?n] => destruct (db_fault E n) eqn:?
  | |- context [redis_fault ?E ?n] => destruct (redis_fault E n) eqn:?
  | |- context [h_authorization ?h] => destruct (h_authorization h) as [[? | ?] |] eqn:?
  | |- context [token_empty ?t] => destruct (token_empty t) eqn:?
  | |- context [String.eqb ?a ?b] => destruct (String.eqb a b) eqn:?
  | |- context [Z.ltb ?a ?b] => destruct (Z.ltb a b) eqn:?
  | |- context [Z.leb ?a ?b] => destruct (Z.leb a b) eqn:?
  | |- context [@filter ?A ?B ?F ?P ?D ?l] => destruct (@filter A B F P D l) eqn:?
  | |- context [u_is_active ?r] => destruct (u_is_active r) eqn:?
  | |- context [redis_lookup ?w ?k] => destruct (redis_lookup w k) eqn:?
  end.

Ltac mcases := repeat (wsimpl; simplify_eq; first [done | case_atom]).

Lemma bind_ok {A B} (m : M A) (k : A -> M B) w a w' :
  m w = (Ok a, w') -> bind m k w = k a w'.
Proof. unfold bind. by intros ->. Qed.

Lemma bind_throw {A B} (m : M A) (k : A -> M B) w e w' :
  m w = (Throw e, w') -> bind m k w = (Throw e, w').
Proof. unfold bind. by intros ->. Qed.

Lemma try_catch_ok {A} (m : M A) h w a w' :
  m w = (Ok a, w') -> try_catch m h w = (Ok a, w').
Proof. unfold try_catch. by intros ->. Qed.

Lemma try_catch_throw {A} (m : M A) h w e w' :
  m w = (Throw e, w') -> try_catch m h w = h e w'.
Proof. unfold try_catch. by intros ->. Qed.

(** The Redis view of a world does not depend on what was logged or on the
    command counter. *)
Lemma redis_lookup_frame w w' key :
  now w' = now w -> redis w' = redis w ->
  redis_lookup w' key = redis_lookup w key.
Proof. unfold redis_lookup. by intros -> ->. Qed.

Lemma getCache_run E key w :
  exists l, getCache E key w =
            (Ok (cache_read E w key), with_log l (with_redis_ops (S (redis_ops w)) w)).
Proof.
  unfold getCache, cache_read, try_catch, bind, client_get, redis_command, logger,
    modify, ret.
  wsimpl. destruct (redis_fault E (redis_ops w)); [eexists; reflexivity |].
  rewrite (redis_lookup_frame w (with_redis_ops (S (redis_ops w)) w) key) by reflexivity.
  destruct (redis_lookup w key) as [e |]; cbn [fmap option_fmap option_map];
    [| eexists; reflexivity].
  destruct (stored_truthy (value e)); eexists; reflexivity.
Qed.

Lemma deleteCache_run E key w :
  exists l, deleteCache E key w =
            (Ok tt,
             with_log l
               (with_redis (if redis_fault E (redis_ops w) then redis w
                            else delete key (redis w))
                  (with_redis_ops (S (redis_ops w)) w))).
Proof.
  unfold deleteCache, try_catch, bind, client_del, redis_command, logger, modify, ret.
  wsimpl. destruct (redis_fault E (redis_ops w)); eexists; reflexivity.
Qed.

(** [setCache] never throws, and touches nothing but its key, the command
    counter and the log. *)
Lemma setCache_run E key v ttl w :
  exists l r n,
    setCache E key v ttl w = (Ok tt, with_log l (with_redis r (with_redis_ops n w))) /\
    (forall k, k <> key -> r !! k = redis w !! k).
Proof.
  unfold setCache, try_catch, bind, client_setEx, redis_command, logger, modify, ret, throw.
  destruct (serializedValue v) as [sv | e]; wsimpl.
  - destruct (redis_fault E (redis_ops w)); wsimpl; [do 3 eexists; (split; [reflexivity | done]) |].
    destruct (ttl <=? 0); wsimpl; [do 3 eexists; (split; [reflexivity | done]) |].
    do 3 eexists. split; [reflexivity |].
    intros k Hk. wsimpl. by rewrite lookup_insert_ne.
  - exists (log w ++ [ {| level := Error;
                          text := "Error setting cache for key " +:+ key +:+ ":";
                          detail := Some e |} ])%list, (redis w), (redis_ops w).
    split; [reflexivity | done].
Qed.

(** The write [setCache] performs when the value is an object or an array,
    the lifetime is positive and the command goes through. *)
Lemma setCache_object_run E key v ttl w :
  Js.typeof_object v = true -> 0 < ttl ->
  exists l,
    setCache E key v ttl w =
    (Ok tt,
     with_log l
       (with_redis (if redis_fault E (redis_ops w) then redis w
                    else <[key := {| value := Json v; expires := Some (now w + ttl) |}]>
                           (redis w))
          (with_redis_ops (S (redis_ops w)) w))).
Proof.
  intros Hobj Httl.
  unfold setCache, serializedValue, try_catch, bind, client_setEx, redis_command,
    logger, modify, ret, throw.
  rewrite Hobj. wsimpl.
  destruct (redis_fault E (redis_ops w)); wsimpl; [eexists; reflexivity |].
  assert ((ttl <=? 0) = false) as -> by lia. eexists; reflexivity.
Qed.

Lemma executeQuery_run {A} E (q : statement A) w :
  executeQuery E q w =
  if db_fault E (db_ops w)
  then (Throw "database call failed", with_db_ops (S (db_ops w)) w)
  else if db_fault E (S (db_ops w))
       then (Throw "database call failed", with_db_ops (S (S (db_ops w))) w)
       else match q (now w) (db w) with
            | Ok (a, d) => (Ok a, with_db d (with_db_ops (S (S (db_ops w))) w))
            | Throw e => (Throw e, with_db_ops (S (S (db_ops w))) w)
            end.
Proof.
  unfold executeQuery, bind, try_finally, pool_connect, autocommit_query, db_call,
    client_release, ret.
  mcrush.
Qed.

Lemma jwt_verify_ok secret p exp w :
  now w < exp -> jwt_verify (Signed secret p exp) secret w = (Ok p, w).
Proof.
  intros Hlt. unfold jwt_verify. rewrite String.eqb_refl.
  by assert ((now w <? exp) = true) as -> by lia.
Qed.

(** A token that was not signed with [secret], or has expired, is refused. *)
Lemma jwt_verify_fail tok secret w :
  (forall p exp, tok = Signed secret p exp -> exp <= now w) ->
  exists e, jwt_verify tok secret w = (Throw e, w).
Proof.
  intros Hbad. unfold jwt_verify. destruct tok as [s p exp | t]; [| eauto].
  destruct (String.eqb_spec s secret) as [-> | _]; [| eauto].
  specialize (Hbad p exp eq_refl).
  assert ((now w <? exp) = false) as -> by lia. eauto.
Qed.

(** ** The access-token gate *)

Lemma has_session_read E w sid :
  has_session w sid -> redis_fault E (redis_ops w) = false ->
  Js.truthy (cache_read E w ("session:" +:+ sid)) = true.
Proof.
  intros (e & fields & Hl & Hv) Hok. unfold cache_read.
  rewrite Hok, Hl, Hv. reflexivity.
Qed.

Lemma no_session_read E w sid :
  redis_lookup w ("session:" +:+ sid) = None ->
  cache_read E w ("session:" +:+ sid) = JNull.
Proof.
  intros Hl. unfold cache_read. rewrite Hl. by destruct (redis_fault E _).
Qed.

(** The gate on a bearer token whose signature check fails. *)
Lemma validateToken_bad_signature E req w tok :
  authorization req = Some (Bearer tok) ->
  token_empty tok = false ->
  (forall p exp, tok = Signed (JWT_SECRET E) p exp -> exp <= now w) ->
  fst (validateToken E req w) = Ok (Respond invalid_token).
Proof.
  intros Hauth Hne Hbad. unfold validateToken. rewrite Hauth, Hne.
  destruct (jwt_verify_fail tok (JWT_SECRET E) w Hbad) as [e He].
  erewrite try_catch_ok; [reflexivity |].
  erewrite try_catch_throw by (erewrite bind_throw by exact He; reflexivity).
  reflexivity.
Qed.

(** The gate on a verified token whose session is not in the store. *)
Lemma validateToken_no_session E req w p exp :
  authorization req = Some (Bearer (Signed (JWT_SECRET E) p exp)) ->
  now w < exp ->
  redis_lookup w ("session:" +:+ sessionId p) = None ->
  fst (validateToken E req w) = Ok (Respond invalid_session).
Proof.
  intros Hauth Hlt Hnone. unfold validateToken. rewrite Hauth. cbn [token_empty].
  destruct (getCache_run E ("session:" +:+ sessionId p) w) as [l Hget].
  erewrite try_catch_ok; [reflexivity |].
  erewrite try_catch_ok; [reflexivity |].
  erewrite bind_ok by (by apply jwt_verify_ok).
  unfold getSession. erewrite bind_ok by exact Hget.
  rewrite no_session_read by done. reflexivity.
Qed.

(** The user lookup of the gate, when the pool and the query go through. *)
Lemma select_user_by_id_run E uid w :
  db_fault E (db_ops w) = false -> db_fault E (S (db_ops w)) = false ->
  executeQuery E (select_user_by_id uid) w =
  (Ok (filter (fun u => u_id u = uid) (users (db w))),
   with_db (db w) (with_db_ops (S (S (db_ops w))) w)).
Proof. intros H1 H2. rewrite executeQuery_run, H1, H2. reflexivity. Qed.

(** The gate on a verified token with a live session whose user is gone or
    deactivated: 401, and the session key is deleted unless the DEL command
    itself fails. *)
Lemma validateToken_inactive E req w p exp :
  authorization req = Some (Bearer (Signed (JWT_SECRET E) p exp)) ->
  now w < exp ->
  has_session w (sessionId p) ->
  redis_fault E (redis_ops w) = false ->
  db_fault E (db_ops w) = false -> db_fault E (S (db_ops w)) = false ->
  (forall row, user_by_id (db w) (userId p) = Some row -> u_is_active row = false) ->
  fst (validateToken E req w) = Ok (Respond user_inactive) /\
  (redis_fault E (S (redis_ops w)) = false ->
   redis (snd (validateToken E req w)) !! ("session:" +:+ sessionId p) = None).
Proof.
  intros Hauth Hlt Hsess Hr Hd1 Hd2 Hrow.
  unfold validateToken. rewrite Hauth. cbn [token_empty].
  destruct (getCache_run E ("session:" +:+ sessionId p) w) as [l Hget].
  set (w1 := with_log l (with_redis_ops (S (redis_ops w)) w)) in *.
  set (w2 := with_db (db w1) (with_db_ops (S (S (db_ops w1))) w1)).
  destruct (deleteCache_run E ("session:" +:+ sessionId p) w2) as [l' Hdel].
  assert (Hq : executeQuery E (select_user_by_id (userId p)) w1 =
               (Ok (filter (fun u => u_id u = userId p) (users (db w))), w2))
    by (by apply select_user_by_id_run).
  match goal with
  | |- context [try_catch ?m ?h w] =>
      assert (Hrun : exists w', m w = (Ok (Respond user_inactive), w') /\
                (redis_fault E (S (redis_ops w)) = false ->
                 redis w' !! ("session:" +:+ sessionId p) = None))
  end.
  { eexists. split.
    - erewrite try_catch_ok; [reflexivity |].
      erewrite bind_ok by (by apply jwt_verify_ok).
      unfold getSession. erewrite bind_ok by exact Hget.
      rewrite has_session_read by done. cbn [negb].
      erewrite bind_ok by exact Hq.
      unfold user_by_id in Hrow.
      destruct (filter _ (users (db w))) as [| row rest].
      + unfold deleteSession. erewrite bind_ok by exact Hdel. reflexivity.
      + rewrite (Hrow row eq_refl). cbn [negb].
        unfold deleteSession. erewrite bind_ok by exact Hdel. reflexivity.
    - intros Hr2. subst w2 w1. wsimpl. rewrite Hr2. apply lookup_delete_eq. }
  destruct Hrun as (w' & Hm & Hdel').
  erewrite try_catch_ok by exact Hm. split; [reflexivity | exact Hdel'].
Qed.

(** The gate on a verified token with a live session and an active user:
    the user is attached and the request goes on. *)
Lemma validateToken_pass E req w p exp row :
  authorization req = Some (Bearer (Signed (JWT_SECRET E) p exp)) ->
  now w < exp ->
  has_session w (sessionId p) ->
  redis_fault E (redis_ops w) = false ->
  db_fault E (db_ops w) = false -> db_fault E (S (db_ops w)) = false ->
  user_by_id (db w) (userId p) = Some row -> u_is_active row = true ->
  fst (validateToken E req w) =
  Ok (Next (with_user {| ru_id := userId p; ru_sessionId := sessionId p;
                         ru_email := u_email row; ru_firstName := u_first_name row;
                         ru_lastName := u_last_name row |} req)).
Proof.
  intros Hauth Hlt Hsess Hr Hd1 Hd2 Hrow Hact.
  unfold validateToken. rewrite Hauth. cbn [token_empty].
  destruct (getCache_run E ("session:" +:+ sessionId p) w) as [l Hget].
  erewrite try_catch_ok; [reflexivity |].
  erewrite try_catch_ok; [reflexivity |].
  erewrite bind_ok by (by apply jwt_verify_ok).
  unfold getSession. erewrite bind_ok by exact Hget.
  rewrite has_session_read by done. cbn [negb].
  erewrite bind_ok by (by apply select_user_by_id_run).
  unfold user_by_id in Hrow.
  destruct (filter _ (users (db _))) as [| row' rest]; [discriminate |].
  cbn in Hrow. simplify_eq. rewrite Hact. reflexivity.
Qed.

(** C2.  The access-token gate, case by case, for a request that carries a
    non-empty bearer token: a token that does not verify is refused with 401
    "Invalid token"; a verified token without a session in the cache is
    refused with 401 "Invalid session"; with a session but a missing or
    deactivated user (cache read and user lookup going through) it is refused
    with 401 and the session key is deleted; otherwise the user read from the
    database is attached to the request and the request proceeds. *)
Theorem validateToken_gate E req w tok :
  authorization req = Some (Bearer tok) ->
  token_empty tok = false ->
  ((forall p exp, tok = Signed (JWT_SECRET E) p exp -> exp <= now w) ->
   fst (validateToken E req w) = Ok (Respond invalid_token)) /\
  (forall p exp,
     tok = Signed (JWT_SECRET E) p exp -> now w < exp ->
     (redis_lookup w ("session:" +:+ sessionId p) = None ->
      fst (validateToken E req w) = Ok (Respond invalid_session)) /\
     (has_session w (sessionId p) ->
      redis_fault E (redis_ops w) = false ->
      db_fault E (db_ops w) = false -> db_fault E (S (db_ops w)) = false ->
      ((forall row, user_by_id (db w) (userId p) = Some row -> u_is_active row = false) ->
       fst (validateToken E req w) = Ok (Respond user_inactive) /\
       (redis_fault E (S (redis_ops w)) = false ->
        redis (snd (validateToken E req w)) !! ("session:" +:+ sessionId p) = None)) /\
      (forall row,
         user_by_id (db w) (userId p) = Some row -> u_is_active row = true ->
         fst (validateToken E req w) =
         Ok (Next (with_user {| ru_id := userId p; ru_sessionId := sessionId p;
                                ru_email := u_email row;
                                ru_firstName := u_first_name row;
                                ru_lastName := u_last_name row |} req))))).
Proof.
  intros Hauth Hne. split.
  - by apply validateToken_bad_signature.
  - intros p exp -> Hlt. split; [by apply (validateToken_no_session E req w p exp) |].
    intros Hsess Hr Hd1 Hd2. split.
    + by apply (validateToken_inactive E req w p exp).
    + intros row Hrow Hact. by apply (validateToken_pass E req w p exp).
Qed.

Lemma validateToken_gate_witness :
  fst (validateToken Scenario.env
         (express_req (Scenario.bearing (Malformed "not-a-token"))) Scenario.w1) =
  Ok (Respond invalid_token) /\
  fst (validateToken Scenario.env
         (express_req (Scenario.bearing Scenario.access_token)) Scenario.w0) =
  Ok (Respond invalid_session) /\
  (fst (validateToken Scenario.env
          (express_req (Scenario.bearing Scenario.carol_token)) Scenario.w_carol) =
   Ok (Respond user_inactive) /\
   redis (snd (validateToken Scenario.env
                 (express_req (Scenario.bearing Scenario.carol_token))
                 Scenario.w_carol)) !! "session:sid9" = None) /\
  fst (validateToken Scenario.env
         (express_req (Scenario.bearing Scenario.access_token)) Scenario.w1) =
  Ok (Next (with_user {| ru_id := "u1"; ru_sessionId := "sid0"; ru_email := "a@b.com";
                         ru_firstName := "A"; ru_lastName := "B" |}
              (express_req (Scenario.bearing Scenario.access_token)))).
Proof.
  split; [| split; [| split]].
  - apply (proj1 (validateToken_gate Scenario.env
                    (express_req (Scenario.bearing (Malformed "not-a-token")))
                    Scenario.w1 (Malformed "not-a-token") eq_refl eq_refl)).
    intros p exp H. discriminate H.
  - pose proof (validateToken_gate Scenario.env
                  (express_req (Scenario.bearing Scenario.access_token))
                  Scenario.w0 Scenario.access_token eq_refl eq_refl) as [_ H].
    destruct (H _ _ eq_refl) as [H' _].
    + vm_compute. reflexivity.
    + apply H'. vm_compute. reflexivity.
  - pose proof (validateToken_gate Scenario.env
                  (express_req (Scenario.bearing Scenario.carol_token))
                  Scenario.w_carol Scenario.carol_token eq_refl eq_refl) as [_ H].
    destruct (H _ _ eq_refl) as [_ H'].
    + vm_compute. reflexivity.
    + destruct H' as [H' _].
      * exists {| value := Json (JObj [ ("userId", JStr "u2") ]); expires := Some 87400 |},
               [ ("userId", JStr "u2") ].
        split; vm_compute; reflexivity.
      * reflexivity.
      * reflexivity.
      * reflexivity.
      * destruct H' as [Hres Hdel].
        -- intros row Hrow. vm_compute in Hrow. injection Hrow as <-. reflexivity.
        -- split; [exact Hres | exact (Hdel eq_refl)].
  - pose proof (validateToken_gate Scenario.env
                  (express_req (Scenario.bearing Scenario.access_token))
                  Scenario.w1 Scenario.access_token eq_refl eq_refl) as [_ H].
    destruct (H _ _ eq_refl) as [_ H'].
    + vm_compute. reflexivity.
    + destruct H' as [_ H'].
      * eexists _, _. split; vm_compute; reflexivity.
      * reflexivity.
      * reflexivity.
      * reflexivity.
      * apply (H' Scenario.alice); vm_compute; reflexivity.
Defined.

(** ** The profile route *)

Lemma user_by_id_filter d uid row :
  user_by_id d uid = Some row ->
  exists rest, filter (fun u => u_id u = uid) (users d) = row :: rest.
Proof.
  unfold user_by_id. destruct (filter _ _) as [| r rest]; [discriminate |].
  cbn. intros [= ->]. eauto.
Qed.

(** The profile route issues no Redis command at all. *)
Lemma GET_profile_no_redis E h w :
  redis (snd (GET_profile E h w)) = redis w /\
  redis_ops (snd (GET_profile E h w)) = redis_ops w.
Proof.
  unfold GET_profile, run_chain, profile_handler, express_req, executeQuery,
    select_user_by_id, pool_connect, autocommit_query, client_release, db_call,
    jwt_verify, try_catch, try_finally, bind, ret, logger, modify, get_world.
  cbn [authorization].
  mcases.
Qed.

Lemma GET_profile_ok E h w p exp row :
  h_authorization h = Some (Bearer (Signed (JWT_SECRET E) p exp)) ->
  now w < exp ->
  db_fault E (db_ops w) = false -> db_fault E (S (db_ops w)) = false ->
  user_by_id (db w) (userId p) = Some row ->
  fst (GET_profile E h w) = Ok (profile_of E w row).
Proof.
  intros Hauth Hlt Hd1 Hd2 Hrow.
  destruct (user_by_id_filter _ _ _ Hrow) as [rest Hf].
  unfold GET_profile, run_chain, profile_handler, express_req.
  cbn [authorization]. rewrite Hauth.
  erewrite try_catch_ok; [reflexivity |].
  erewrite try_catch_ok; [reflexivity |].
  erewrite bind_ok by (by apply jwt_verify_ok).
  erewrite bind_ok by (by apply select_user_by_id_run).
  rewrite Hf. reflexivity.
Qed.

(** A request with no bearer token is refused. *)
Lemma GET_profile_no_bearer E h w :
  (forall tok, h_authorization h <> Some (Bearer tok)) ->
  fst (GET_profile E h w) = Ok authentication_required.
Proof.
  intros Hauth.
  unfold GET_profile, run_chain, profile_handler, express_req, try_catch, ret.
  cbn [authorization].
  destruct (h_authorization h) as [[text | tok] |]; [reflexivity | | reflexivity].
  by destruct (Hauth tok).
Qed.

(** A token that does not verify under the access secret (another text,
    another signature, or expired) is refused. *)
Lemma GET_profile_unverified E h w tok :
  h_authorization h = Some (Bearer tok) ->
  (forall p exp, tok = Signed (JWT_SECRET E) p exp -> exp <= now w) ->
  fst (GET_profile E h w) = Ok invalid_token.
Proof.
  intros Hauth Hbad.
  destruct (jwt_verify_fail tok (JWT_SECRET E) w Hbad) as [e He].
  unfold GET_profile, run_chain, profile_handler, express_req.
  cbn [authorization]. rewrite Hauth.
  erewrite try_catch_ok; [reflexivity |].
  erewrite try_catch_throw by (erewrite bind_throw by exact He; reflexivity).
  reflexivity.
Qed.

(** A 200 from the profile route is the profile of the user named by a
    token that verifies under the access secret and has not expired. *)
Lemma GET_profile_success E h w r :
  fst (GET_profile E h w) = Ok r -> status r = 200 ->
  exists p exp row,
    h_authorization h = Some (Bearer (Signed (JWT_SECRET E) p exp)) /\
    now w < exp /\
    user_by_id (db w) (userId p) = Some row /\
    r = profile_of E w row.
Proof.
  unfold GET_profile, run_chain, profile_handler, express_req, executeQuery,
    select_user_by_id, pool_connect, autocommit_query, client_release, db_call,
    jwt_verify, try_catch, try_finally, bind, ret, logger, modify, get_world, user_by_id.
  cbn [authorization]. intros Hr Hs. revert Hr.
  repeat (wsimpl; simplify_eq;
          first [ done | case_atom
                | intros [= <-]; cbn in Hs; try discriminate Hs ]).
  apply String.eqb_eq in Heqb as ->.
  eexists _, _, _. split; [reflexivity |]. split; [lia |].
  match goal with H : filter _ _ = _ |- _ => rewrite H end.
  split; reflexivity.
Qed.

(** C10.  The profile route authenticates by verifying the token and by
    nothing else.  It never touches the session store.  It answers 200 with
    the profile for every access token that verifies and whose user row
    exists (the lookup going through), whether or not the session of the
    token is still in the cache; in a world where the session is gone, a
    route behind the gate refuses the same request with 401.  It refuses
    every request without a bearer token and every token that does not
    verify under the access secret or has expired, so a 200 is only ever
    given for an unexpired token signed with the access secret; for a token
    minted by [generateTokens] that is until 900 seconds after it was
    issued. *)
Theorem profile_ignores_session E h w :
  (redis (snd (GET_profile E h w)) = redis w /\
   redis_ops (snd (GET_profile E h w)) = redis_ops w) /\
  (forall p exp row,
     h_authorization h = Some (Bearer (Signed (JWT_SECRET E) p exp)) ->
     now w < exp ->
     db_fault E (db_ops w) = false -> db_fault E (S (db_ops w)) = false ->
     user_by_id (db w) (userId p) = Some row ->
     fst (GET_profile E h w) = Ok (profile_of E w row) /\
     (redis_lookup w ("session:" +:+ sessionId p) = None ->
      forall handler, fst (protected E handler h w) = Ok invalid_session)) /\
  ((forall tok, h_authorization h <> Some (Bearer tok)) ->
   fst (GET_profile E h w) = Ok authentication_required) /\
  (forall tok,
     h_authorization h = Some (Bearer tok) ->
     (forall p exp, tok = Signed (JWT_SECRET E) p exp -> exp <= now w) ->
     fst (GET_profile E h w) = Ok invalid_token) /\
  (forall r,
     fst (GET_profile E h w) = Ok r -> status r = 200 ->
     exists p exp row,
       h_authorization h = Some (Bearer (Signed (JWT_SECRET E) p exp)) /\
       now w < exp /\
       user_by_id (db w) (userId p) = Some row /\
       r = profile_of E w row) /\
  (forall uid sid w0,
     h_authorization h = Some (Bearer (fst (issued E uid sid w0))) ->
     now w0 + 900 <= now w ->
     fst (GET_profile E h w) = Ok invalid_token).
Proof.
  split; [apply GET_profile_no_redis |].
  split; [| split; [| split; [| split]]].
  - intros p exp row Hauth Hlt Hd1 Hd2 Hrow. split.
    + by apply (GET_profile_ok E h w p exp).
    + intros Hnone handler. unfold protected, run_chain.
      pose proof (validateToken_no_session E (express_req h) w p exp Hauth Hlt Hnone) as Hv.
      unfold bind. destruct (validateToken E (express_req h) w) as [[s | e] w'];
        cbn in Hv; simplify_eq. reflexivity.
  - apply GET_profile_no_bearer.
  - apply GET_profile_unverified.
  - apply GET_profile_success.
  - intros uid sid w0 Hauth Hlate.
    apply (GET_profile_unverified E h w _ Hauth).
    unfold issued. cbn. intros p exp Heq. simplify_eq. lia.
Qed.

Lemma profile_ignores_session_witness :
  (fst (GET_profile Scenario.env (Scenario.bearing Scenario.access_token) Scenario.w0) =
     Ok (profile_of Scenario.env Scenario.w0 Scenario.alice) /\
   fst (protected Scenario.env Scenario.whoami
          (Scenario.bearing Scenario.access_token) Scenario.w0) =
     Ok invalid_session) /\
  fst (GET_profile Scenario.env
         (Scenario.bearing (Signed "attacker-secret"
                              {| userId := "u1"; sessionId := "sid0" |} 1900))
         Scenario.w0) = Ok invalid_token /\
  fst (GET_profile Scenario.env (Scenario.bearing Scenario.access_token)
         (at_time 1900 Scenario.w0)) = Ok invalid_token /\
  fst (GET_profile Scenario.env (Scenario.anonymous "203.0.113.7") Scenario.w0) =
    Ok authentication_required.
Proof.
  split; [| split; [| split]].
  - destruct (proj1 (proj2 (profile_ignores_session Scenario.env
                              (Scenario.bearing Scenario.access_token) Scenario.w0))
                {| userId := "u1"; sessionId := "sid0" |} 1900 Scenario.alice
                eq_refl) as [Hok Hgate].
    + vm_compute. reflexivity.
    + reflexivity.
    + reflexivity.
    + reflexivity.
    + split; [exact Hok |]. apply Hgate. vm_compute. reflexivity.
  - apply (proj1 (proj2 (proj2 (proj2 (profile_ignores_session Scenario.env
             (Scenario.bearing (Signed "attacker-secret"
                                  {| userId := "u1"; sessionId := "sid0" |} 1900))
             Scenario.w0)))) _ eq_refl).
    intros p exp [= ]. 
  - apply (proj2 (proj2 (proj2 (proj2 (proj2 (profile_ignores_session Scenario.env
             (Scenario.bearing Scenario.access_token) (at_time 1900 Scenario.w0))))))
             "u1" "sid0" Scenario.w0 eq_refl).
    vm_compute. discriminate.
  - apply (proj1 (proj2 (proj2 (profile_ignores_session Scenario.env
             (Scenario.anonymous "203.0.113.7") Scenario.w0)))).
    intros tok. discriminate.
Defined.

(** ** The refresh route *)

Ltac unfold_refresh :=
  unfold POST_refresh, run_chain, refreshValidation, refresh_handler, express_req,
    with_validation, validation_failed, executeQuery, select_refresh_token,
    select_user_by_id, pool_connect, autocommit_query, client_release, db_call,
    jwt_verify, jwt_sign, try_catch, try_finally, bind, ret, logger, modify, get_world;
  cbn [authorization body_refreshToken validation_errors body_email app].

(** Whatever the request, the refresh route leaves the cache and the tables
    as they were, and issues no Redis command. *)
Lemma POST_refresh_frame E h w :
  redis (snd (POST_refresh E h w)) = redis w /\
  redis_ops (snd (POST_refresh E h w)) = redis_ops w /\
  db (snd (POST_refresh E h w)) = db w /\
  db_txn (snd (POST_refresh E h w)) = db_txn w.
Proof. unfold_refresh. mcases. Qed.

(** The refresh route always answers. *)
Lemma POST_refresh_answers E h w :
  exists r, fst (POST_refresh E h w) = Ok r.
Proof. unfold_refresh. mcases; eauto. Qed.

(** A 200 from the refresh route carries exactly one token: an access token
    for the payload of the presented refresh token. *)
Lemma POST_refresh_success E h w r :
  fst (POST_refresh E h w) = Ok r -> status r = 200 ->
  exists p exp,
    h_refreshToken h = Signed (JWT_REFRESH_SECRET E) p exp /\
    now w < exp /\
    r = refreshed E w p.
Proof.
  unfold_refresh. intros Hr Hs. revert Hr.
  repeat (wsimpl; simplify_eq;
          first [ done | case_atom
                | intros [= <-]; cbn in Hs; try discriminate Hs ]).
  apply String.eqb_eq in Heqb0 as ->.
  eexists _, _. split; [reflexivity |]. split; [lia | reflexivity].
Qed.

(** C9.  A successful refresh answers with a new access token only, built
    from the payload of the presented refresh token; the cache (hence the
    session record) and the tables (hence the refresh-token row) are exactly
    as before, and no Redis command is issued. *)
Theorem refresh_rotates_nothing E h w r :
  fst (POST_refresh E h w) = Ok r ->
  status r = 200 ->
  (exists p exp,
     h_refreshToken h = Signed (JWT_REFRESH_SECRET E) p exp /\
     now w < exp /\
     r = refreshed E w p) /\
  redis (snd (POST_refresh E h w)) = redis w /\
  redis_ops (snd (POST_refresh E h w)) = redis_ops w /\
  db (snd (POST_refresh E h w)) = db w /\
  db_txn (snd (POST_refresh E h w)) = db_txn w.
Proof.
  intros Hr Hs. split.
  - by apply POST_refresh_success.
  - apply POST_refresh_frame.
Qed.

Lemma refresh_rotates_nothing_witness :
  (exists p exp,
     h_refreshToken (Scenario.presenting Scenario.refresh_token) =
       Signed (JWT_REFRESH_SECRET Scenario.env) p exp /\
     now Scenario.w1 < exp /\
     refreshed Scenario.env Scenario.w1 {| userId := "u1"; sessionId := "sid0" |} =
       refreshed Scenario.env Scenario.w1 p) /\
  redis (snd (POST_refresh Scenario.env (Scenario.presenting Scenario.refresh_token)
                Scenario.w1)) = redis Scenario.w1 /\
  redis_ops (snd (POST_refresh Scenario.env (Scenario.presenting Scenario.refresh_token)
                    Scenario.w1)) = redis_ops Scenario.w1 /\
  db (snd (POST_refresh Scenario.env (Scenario.presenting Scenario.refresh_token)
             Scenario.w1)) = db Scenario.w1 /\
  db_txn (snd (POST_refresh Scenario.env (Scenario.presenting Scenario.refresh_token)
                 Scenario.w1)) = db_txn Scenario.w1.
Proof.
  apply (refresh_rotates_nothing Scenario.env
           (Scenario.presenting Scenario.refresh_token) Scenario.w1
           (refreshed Scenario.env Scenario.w1 {| userId := "u1"; sessionId := "sid0" |})).
  - vm_compute. reflexivity.
  - reflexivity.
Defined.

Lemma select_refresh_token_none (rows : list refresh_token_row) (tok : string) (t : Z) :
  (forall r, r ∈ rows -> rt_token r = tok -> rt_expires_at r <= t) ->
  filter (fun r => rt_token r = tok /\ t < rt_expires_at r) rows = [].
Proof.
  induction rows as [| r rows IH]; intros Hall; [reflexivity |].
  rewrite filter_cons. destruct (decide _) as [[Htok Hexp] | _].
  - specialize (Hall r (list_elem_of_here _ _) Htok). lia.
  - apply IH. intros r' Hin. apply Hall. by apply list_elem_of_further.
Qed.

(** C3.  A refresh token whose signature verifies under the refresh secret,
    but for which the table holds no row that is still unexpired, never
    yields a new access token: the route answers 401 or 500, and when the
    lookup goes through it answers 401 "Invalid refresh token". *)
Theorem refresh_requires_unexpired_row E h w p exp :
  h_refreshToken h = Signed (JWT_REFRESH_SECRET E) p exp ->
  (forall r, r ∈ refresh_tokens (db w) ->
             rt_token r = sessionId p -> rt_expires_at r <= now w) ->
  (exists r, fst (POST_refresh E h w) = Ok r /\ (status r = 401 \/ status r = 500)) /\
  (db_fault E (db_ops w) = false -> db_fault E (S (db_ops w)) = false ->
   exists msg, fst (POST_refresh E h w) = Ok (invalid_refresh_token msg)).
Proof.
  intros Htok Hrows.
  pose proof (select_refresh_token_none _ _ _ Hrows) as Hnil.
  unfold_refresh. rewrite Htok. cbn [token_empty]. rewrite String.eqb_refl.
  destruct (now w <? exp) eqn:Hlt; wsimpl.
  - destruct (db_fault E (db_ops w)); wsimpl; [split; [eauto | done] |].
    destruct (db_fault E (S (db_ops w))); wsimpl; [split; [eauto | done] |].
    rewrite Hnil. split; [eauto | intros _ _; eexists; reflexivity].
  - split; [eauto | intros _ _; eexists; reflexivity].
Qed.

Lemma refresh_requires_unexpired_row_witness :
  (exists r, fst (POST_refresh Scenario.env (Scenario.presenting Scenario.refresh_token)
                    Scenario.w0) = Ok r /\ (status r = 401 \/ status r = 500)) /\
  (exists msg, fst (POST_refresh Scenario.env (Scenario.presenting Scenario.refresh_token)
                      Scenario.w0) = Ok (invalid_refresh_token msg)).
Proof.
  destruct (refresh_requires_unexpired_row Scenario.env
              (Scenario.presenting Scenario.refresh_token) Scenario.w0
              {| userId := "u1"; sessionId := "sid0" |} 605800 eq_refl) as [H1 H2].
  - intros r Hin. vm_compute in Hin. inversion Hin.
  - split; [exact H1 | exact (H2 eq_refl eq_refl)].
Defined.

(** ** The rate-limit gate *)

(** [incrementRateLimit] never throws and touches only its key, the command
    counter and the log. *)
Lemma incrementRateLimit_frame E key ms w :
  (exists c, fst (incrementRateLimit E key ms w) = Ok c) /\
  cache_only w (snd (incrementRateLimit E key ms w)) /\
  (forall k, k <> key ->
             redis (snd (incrementRateLimit E key ms w)) !! k = redis w !! k).
Proof.
  unfold cache_only, incrementRateLimit, client_incr, client_expire, redis_command,
    try_catch, bind, ret, logger, modify.
  wsimpl.
  assert (Hins : forall v k, k <> key -> <[key := v]> (redis w) !! k = redis w !! k)
    by (intros; by rewrite lookup_insert_ne).
  assert (Hins2 : forall v v' k,
            k <> key -> <[key := v']> (<[key := v]> (redis w)) !! k = redis w !! k)
    by (intros; by rewrite !lookup_insert_ne).
  assert (Hfin : forall (c : Z) (r : gmap string redis_entry),
            (forall k, k <> key -> r !! k = redis w !! k) ->
            (exists c0, Ok c = Ok c0) /\
            (now w = now w /\ db w = db w /\ db_txn w = db_txn w /\
             db_ops w = db_ops w /\ rng_ops w = rng_ops w /\
             bcrypt_compares w = bcrypt_compares w) /\
            (forall k, k <> key -> r !! k = redis w !! k))
    by (intros; eauto 10).
  destruct (redis_fault E (redis_ops w)); wsimpl; [by apply Hfin |].
  rewrite (redis_lookup_frame w (with_redis_ops (S (redis_ops w)) w) key) by reflexivity.
  destruct (redis_lookup w key) as [e |] eqn:Hl; wsimpl.
  - destruct (value e) as [v | n | s]; wsimpl; try (by apply Hfin).
    destruct (2 ^ 63 - 1 <=? n); wsimpl; [by apply Hfin |].
    destruct (n + 1 =? 1); wsimpl; [| by apply Hfin; auto].
    destruct (redis_fault E (S (redis_ops w))); wsimpl; [by apply Hfin; auto |].
    match goal with
    | |- context [redis_lookup ?w' key] => destruct (redis_lookup w' key)
    end; wsimpl; by apply Hfin; auto.
  - rewrite Z.eqb_refl. wsimpl.
    destruct (redis_fault E (S (redis_ops w))); wsimpl; [by apply Hfin; auto |].
    match goal with
    | |- context [redis_lookup ?w' key] => destruct (redis_lookup w' key)
    end; wsimpl; by apply Hfin; auto.
Qed.

(** The gate in terms of the counter value: above five it answers 429,
    otherwise the request goes on unchanged. *)
Lemma authRateLimit_run E req w c w' :
  incrementRateLimit E (rate_key (ip req)) (15 * 60 * 1000) w = (Ok c, w') ->
  authRateLimit E req w =
  (Ok (if 5 <? c then Respond rate_limited else Next req), w').
Proof.
  intros Hinc. unfold authRateLimit. fold (rate_key (ip req)).
  erewrite try_catch_ok; [reflexivity |].
  erewrite bind_ok by exact Hinc. by destruct (5 <? c).
Qed.

(** The gate never throws; it answers 429 or passes the request on
    unchanged, and it touches only the counter of the caller's address. *)
Lemma authRateLimit_frame E req w :
  (fst (authRateLimit E req w) = Ok (Respond rate_limited) \/
   fst (authRateLimit E req w) = Ok (Next req)) /\
  cache_only w (snd (authRateLimit E req w)) /\
  (forall k, k <> rate_key (ip req) ->
             redis (snd (authRateLimit E req w)) !! k = redis w !! k).
Proof.
  destruct (incrementRateLimit_frame E (rate_key (ip req)) (15 * 60 * 1000) w)
    as ([c Hc] & Hframe & Hkeys).
  destruct (incrementRateLimit E (rate_key (ip req)) (15 * 60 * 1000) w)
    as [o w'] eqn:Hinc.
  cbn in Hc. subst o. rewrite (authRateLimit_run E req w c w' Hinc).
  cbn [fst snd] in *. split; [| done].
  destruct (5 <? c); auto.
Qed.

(** ** The login route *)

Lemma user_by_email_filter d email row :
  user_by_email d email = Some row ->
  exists rest, filter (fun u => u_email u = email) (users d) = row :: rest.
Proof.
  unfold user_by_email. destruct (filter _ _) as [| r rest]; [discriminate |].
  cbn. intros [= ->]. eauto.
Qed.

Lemma user_by_email_none d email :
  user_by_email d email = None ->
  filter (fun u => u_email u = email) (users d) = [].
Proof. unfold user_by_email. by destruct (filter _ _). Qed.

Lemma select_user_by_email_run E email w :
  db_fault E (db_ops w) = false -> db_fault E (S (db_ops w)) = false ->
  executeQuery E (select_user_by_email email) w =
  (Ok (filter (fun u => u_email u = email) (users (db w))),
   with_db (db w) (with_db_ops (S (S (db_ops w))) w)).
Proof. intros H1 H2. rewrite executeQuery_run, H1, H2. reflexivity. Qed.

(** No user with the given email. *)
Lemma login_handler_unknown E req w :
  validation_errors req = [] ->
  db_fault E (db_ops w) = false -> db_fault E (S (db_ops w)) = false ->
  user_by_email (db w) (body_email req) = None ->
  fst (login_handler E req w) = Ok invalid_credentials.
Proof.
  intros Hv Hd1 Hd2 Hnone. unfold login_handler. rewrite Hv.
  erewrite try_catch_ok; [reflexivity |].
  erewrite bind_ok by (by apply select_user_by_email_run).
  by rewrite (user_by_email_none _ _ Hnone).
Qed.

(** An active user, and a password that does not match the stored hash. *)
Lemma login_handler_wrong_password E req w row :
  validation_errors req = [] ->
  db_fault E (db_ops w) = false -> db_fault E (S (db_ops w)) = false ->
  user_by_email (db w) (body_email req) = Some row ->
  u_is_active row = true ->
  bcrypt_compare E (body_password req) (u_password_hash row) = false ->
  fst (login_handler E req w) = Ok invalid_credentials.
Proof.
  intros Hv Hd1 Hd2 Hrow Hact Hpw. unfold login_handler. rewrite Hv.
  destruct (user_by_email_filter _ _ _ Hrow) as [rest Hf].
  erewrite try_catch_ok; [reflexivity |].
  erewrite bind_ok by (by apply select_user_by_email_run).
  rewrite Hf, Hact. cbn [negb].
  unfold comparePassword, bind, modify, ret. cbn. by rewrite Hpw.
Qed.

(** A deactivated user: a different answer, given before the password is
    looked at. *)
Lemma login_handler_inactive E req w row :
  validation_errors req = [] ->
  db_fault E (db_ops w) = false -> db_fault E (S (db_ops w)) = false ->
  user_by_email (db w) (body_email req) = Some row ->
  u_is_active row = false ->
  fst (login_handler E req w) = Ok account_inactive /\
  bcrypt_compares (snd (login_handler E req w)) = bcrypt_compares w.
Proof.
  intros Hv Hd1 Hd2 Hrow Hact. unfold login_handler. rewrite Hv.
  destruct (user_by_email_filter _ _ _ Hrow) as [rest Hf].
  erewrite try_catch_ok.
  2:{ erewrite bind_ok by (by apply select_user_by_email_run).
      rewrite Hf, Hact. reflexivity. }
  done.
Qed.

(** The login route behind its gate, in terms of the counter value: above
    five the gate answers 429 and nothing else runs; otherwise the handler
    runs on the validated request. *)
Lemma POST_login_run E h w c w' :
  well_formed_login E h ->
  incrementRateLimit E (rate_key (h_ip h)) (15 * 60 * 1000) w = (Ok c, w') ->
  POST_login E h w =
  if 5 <? c then (Ok rate_limited, w')
  else login_handler E (with_validation (normalizeEmail E (h_email h)) []
                          (express_req h)) w'.
Proof.
  intros [Hemail Hpw] Hinc. unfold POST_login, run_chain.
  erewrite bind_ok by (by apply (authRateLimit_run E (express_req h) w c w')).
  destruct (5 <? c); [reflexivity |].
  unfold loginValidation. cbn [express_req body_email body_password].
  rewrite Hemail. apply String.eqb_neq in Hpw. rewrite Hpw. reflexivity.
Qed.

(** C4 (as the code has it).  Two well-formed login requests from one
    address, one for an email no user has and one for an existing user with a
    wrong password: when that user is active, both get the same answer, the
    generic 401 "Invalid credentials" (or both get the 429 of the gate), and
    it is the generic 401 whenever the gate lets the request through; when
    that user is deactivated, the second request gets the 401 "Account
    inactive" instead, which differs from the generic answer, and this answer
    is given before the password is compared: the number of password
    comparisons is what it was. *)
Theorem login_rejections E w h1 h2 row :
  h_ip h1 = h_ip h2 ->
  well_formed_login E h1 -> well_formed_login E h2 ->
  db_fault E (db_ops w) = false -> db_fault E (S (db_ops w)) = false ->
  user_by_email (db w) (normalizeEmail E (h_email h1)) = None ->
  user_by_email (db w) (normalizeEmail E (h_email h2)) = Some row ->
  (u_is_active row = true ->
   bcrypt_compare E (h_password h2) (u_password_hash row) = false ->
   fst (POST_login E h1 w) = fst (POST_login E h2 w) /\
   (fst (POST_login E h1 w) = Ok invalid_credentials \/
    fst (POST_login E h1 w) = Ok rate_limited) /\
   (fst (authRateLimit E (express_req h1) w) = Ok (Next (express_req h1)) ->
    fst (POST_login E h1 w) = Ok invalid_credentials /\
    fst (POST_login E h2 w) = Ok invalid_credentials)) /\
  (u_is_active row = false ->
   (fst (POST_login E h1 w) = Ok invalid_credentials /\
    fst (POST_login E h2 w) = Ok account_inactive \/
    fst (POST_login E h1 w) = Ok rate_limited /\
    fst (POST_login E h2 w) = Ok rate_limited) /\
   account_inactive <> invalid_credentials /\
   bcrypt_compares (snd (POST_login E h2 w)) = bcrypt_compares w /\
   (fst (authRateLimit E (express_req h2) w) = Ok (Next (express_req h2)) ->
    fst (POST_login E h1 w) = Ok invalid_credentials /\
    fst (POST_login E h2 w) = Ok account_inactive)).
Proof.
  intros Hip Hwf1 Hwf2 Hd1 Hd2 Hnone Hrow.
  destruct (incrementRateLimit_frame E (rate_key (h_ip h1)) (15 * 60 * 1000) w)
    as ([c Hc] & Hframe & _).
  destruct (incrementRateLimit E (rate_key (h_ip h1)) (15 * 60 * 1000) w)
    as [o w'] eqn:Hinc.
  cbn [fst snd] in *. subst o.
  destruct Hframe as (_ & Hdb & _ & Hops & _ & Hcmp).
  rewrite (POST_login_run E h1 w c w' Hwf1 Hinc).
  rewrite (authRateLimit_run E (express_req h1) w c w' Hinc).
  rewrite Hip in Hinc. rewrite (POST_login_run E h2 w c w' Hwf2 Hinc).
  rewrite (authRateLimit_run E (express_req h2) w c w' Hinc).
  assert (H1 : fst (login_handler E
                      (with_validation (normalizeEmail E (h_email h1)) []
                         (express_req h1)) w') = Ok invalid_credentials).
  { apply login_handler_unknown; rewrite ?Hops, ?Hdb; done. }
  split.
  - intros Hact Hpw.
    assert (H2 : fst (login_handler E
                        (with_validation (normalizeEmail E (h_email h2)) []
                           (express_req h2)) w') = Ok invalid_credentials).
    { apply (login_handler_wrong_password E _ w' row); rewrite ?Hops, ?Hdb; done. }
    destruct (5 <? c); cbn [fst].
    + split; [done |]. split; [auto | discriminate].
    + rewrite H1, H2. auto.
  - intros Hact.
    assert (H2 : fst (login_handler E
                        (with_validation (normalizeEmail E (h_email h2)) []
                           (express_req h2)) w') = Ok account_inactive /\
                 bcrypt_compares
                   (snd (login_handler E
                           (with_validation (normalizeEmail E (h_email h2)) []
                              (express_req h2)) w')) = bcrypt_compares w').
    { apply (login_handler_inactive E _ w' row); rewrite ?Hops, ?Hdb; done. }
    destruct H2 as [H2 H2cmp].
    destruct (5 <? c); cbn [fst snd].
    + split; [auto |]. split; [discriminate |]. split; [exact Hcmp | discriminate].
    + split; [auto |]. split; [discriminate |]. split; [congruence | auto].
Qed.

Lemma login_rejections_witness :
  (fst (POST_login Scenario.env
          (Scenario.credentials "203.0.113.7" "nobody@example.com" "Secur3!Pass")
          Scenario.w0) = Ok invalid_credentials /\
   fst (POST_login Scenario.env
          (Scenario.credentials "203.0.113.7" "a@b.com" "wrong-password")
          Scenario.w0) = Ok invalid_credentials) /\
  (fst (POST_login Scenario.env
          (Scenario.credentials "203.0.113.7" "nobody@example.com" "Secur3!Pass")
          Scenario.w0) = Ok invalid_credentials /\
   fst (POST_login Scenario.env
          (Scenario.credentials "203.0.113.7" "c@d.com" "Passw0rd!")
          Scenario.w0) = Ok account_inactive) /\
  bcrypt_compares
    (snd (POST_login Scenario.env
            (Scenario.credentials "203.0.113.7" "c@d.com" "Passw0rd!")
            Scenario.w0)) = bcrypt_compares Scenario.w0.
Proof.
  pose proof (login_rejections Scenario.env Scenario.w0
                (Scenario.credentials "203.0.113.7" "nobody@example.com" "Secur3!Pass")
                (Scenario.credentials "203.0.113.7" "a@b.com" "wrong-password")
                Scenario.alice eq_refl) as Hactive.
  pose proof (login_rejections Scenario.env Scenario.w0
                (Scenario.credentials "203.0.113.7" "nobody@example.com" "Secur3!Pass")
                (Scenario.credentials "203.0.113.7" "c@d.com" "Passw0rd!")
                Scenario.carol eq_refl) as Hinactive.
  destruct Hactive as [Hactive _]; try reflexivity;
    try (split; (reflexivity || discriminate)).
  destruct Hinactive as [_ Hinactive]; try reflexivity;
    try (split; (reflexivity || discriminate)).
  destruct (Hactive eq_refl eq_refl) as (_ & _ & Hsame).
  destruct (Hinactive eq_refl) as (_ & _ & Hcmp & Hdiff).
  split; [apply Hsame; reflexivity |].
  split; [apply Hdiff; reflexivity | exact Hcmp].
Defined.

(** C4 (as stated) fails on a deactivated account: with the same wrong
    password, the request for an unknown email and the request for the email
    of a deactivated user get different answers. *)
Lemma login_inactive_user_distinguishable :
  user_by_email (db Scenario.w0) "nobody@example.com" = None /\
  user_by_email (db Scenario.w0) "c@d.com" = Some Scenario.carol /\
  bcrypt_compare Scenario.env "wrong-password" (u_password_hash Scenario.carol) = false /\
  fst (POST_login Scenario.env
         (Scenario.credentials "203.0.113.7" "nobody@example.com" "wrong-password")
         Scenario.w0) = Ok invalid_credentials /\
  fst (POST_login Scenario.env
         (Scenario.credentials "203.0.113.7" "c@d.com" "wrong-password")
         Scenario.w0) = Ok account_inactive /\
  fst (POST_login Scenario.env
         (Scenario.credentials "203.0.113.7" "nobody@example.com" "wrong-password")
         Scenario.w0) <>
  fst (POST_login Scenario.env
         (Scenario.credentials "203.0.113.7" "c@d.com" "wrong-password")
         Scenario.w0).
Proof.
  repeat split; try (vm_compute; reflexivity).
  vm_compute. intros H. discriminate H.
Qed.

(** ** Logout *)

(** The logout middleware never fails the request. *)
Lemma logout_never_fails E req w :
  fst (logout E req w) = Ok (Next req).
Proof.
  unfold logout, deleteSession, deleteCache, client_del, redis_command, executeQuery,
    delete_refresh_token, pool_connect, autocommit_query, client_release, db_call,
    try_catch, try_finally, bind, ret, logger, modify.
  destruct (user req) as [u |]; [| reflexivity].
  destruct (negb _); [| reflexivity].
  mcases.
Qed.

(** With [req.user] attached and both stores answering, the middleware
    removes the session key and the refresh-token row of that session. *)
Lemma logout_deletes E req w u :
  user req = Some u ->
  ru_sessionId u <> EmptyString ->
  redis_fault E (redis_ops w) = false ->
  db_fault E (db_ops w) = false -> db_fault E (S (db_ops w)) = false ->
  redis (snd (logout E req w)) = delete ("session:" +:+ ru_sessionId u) (redis w) /\
  refresh_tokens (db (snd (logout E req w))) =
    filter (fun r => ~ (rt_user_id r = ru_id u /\ rt_token r = ru_sessionId u))
           (refresh_tokens (db w)) /\
  users (db (snd (logout E req w))) = users (db w) /\
  now (snd (logout E req w)) = now w.
Proof.
  intros Hu Hsid Hr Hd1 Hd2.
  unfold logout, deleteSession, deleteCache, client_del, redis_command, executeQuery,
    delete_refresh_token, pool_connect, autocommit_query, client_release, db_call,
    try_catch, try_finally, bind, ret, logger, modify.
  rewrite Hu. apply String.eqb_neq in Hsid. rewrite Hsid. cbn [negb].
  wsimpl. rewrite Hr. wsimpl. rewrite Hd1. wsimpl. rewrite Hd2. wsimpl. done.
Qed.

(** After such a logout, the gate refuses the old access token although its
    signature still verifies. *)
Lemma logout_then_gate E req w u req' p exp :
  user req = Some u ->
  ru_sessionId u <> EmptyString ->
  redis_fault E (redis_ops w) = false ->
  db_fault E (db_ops w) = false -> db_fault E (S (db_ops w)) = false ->
  authorization req' = Some (Bearer (Signed (JWT_SECRET E) p exp)) ->
  sessionId p = ru_sessionId u ->
  now w < exp ->
  fst (validateToken E req' (snd (logout E req w))) = Ok (Respond invalid_session).
Proof.
  intros Hu Hsid Hr Hd1 Hd2 Hauth Hp Hlt.
  destruct (logout_deletes E req w u Hu Hsid Hr Hd1 Hd2) as (Hredis & _ & _ & Hnow).
  apply (validateToken_no_session E req' _ p exp Hauth); [lia |].
  unfold redis_lookup. rewrite Hredis, Hp, lookup_delete_eq. reflexivity.
Qed.

(** Deleting twice is deleting once. *)
Lemma logout_idempotent E req w u :
  user req = Some u ->
  ru_sessionId u <> EmptyString ->
  (forall n, redis_fault E n = false) -> (forall n, db_fault E n = false) ->
  redis (snd (logout E req (snd (logout E req w)))) = redis (snd (logout E req w)) /\
  db (snd (logout E req (snd (logout E req w)))) = db (snd (logout E req w)).
Proof.
  intros Hu Hsid Hr Hd.
  unfold logout, deleteSession, deleteCache, client_del, redis_command, executeQuery,
    delete_refresh_token, pool_connect, autocommit_query, client_release, db_call,
    try_catch, try_finally, bind, ret, logger, modify.
  rewrite Hu. apply String.eqb_neq in Hsid. rewrite Hsid. cbn [negb].
  repeat (progress (wsimpl; rewrite ?Hr, ?Hd)). split.
  - by rewrite delete_delete_eq.
  - unfold with_refresh_tokens. cbn. f_equal.
    rewrite list_filter_filter. apply list_filter_iff. tauto.
Qed.

(** The logout route as mounted: [req.user] is never set on the way to the
    middleware, so the route answers 200 and changes nothing at all. *)
Lemma POST_logout_changes_nothing E h w :
  POST_logout E h w = (Ok (logged_out E w), w).
Proof. reflexivity. Qed.

(** C1.  On the code as mounted the claim fails.  Alice logs in, and her
    access token opens a protected route.  She then posts to the logout
    route with that token: the route answers 200 "Logout successful", but the
    session key and the refresh-token row are still there, and the same
    token still opens the protected route instead of being refused with 401
    "Invalid session". *)
Theorem logout_route_keeps_session :
  fst (protected Scenario.env Scenario.whoami
         (Scenario.bearing Scenario.access_token) Scenario.w1) =
    Ok (res_json 200 (JObj [ ("success", JBool true); ("user", JStr "u1") ])) /\
  POST_logout Scenario.env (Scenario.bearing Scenario.access_token) Scenario.w1 =
    (Ok (logged_out Scenario.env Scenario.w1), Scenario.w1) /\
  redis (snd (POST_logout Scenario.env (Scenario.bearing Scenario.access_token)
                Scenario.w1)) !! "session:sid0" =
    Some {| value := Json (JObj [ ("userId", JStr "u1"); ("email", JStr "a@b.com");
                                  ("firstName", JUndefined); ("lastName", JUndefined) ]);
            expires := Some 87400 |} /\
  refresh_tokens (db (snd (POST_logout Scenario.env
                             (Scenario.bearing Scenario.access_token) Scenario.w1))) =
    [ {| rt_user_id := "u1"; rt_token := "sid0"; rt_expires_at := 605800 |} ] /\
  fst (protected Scenario.env Scenario.whoami
         (Scenario.bearing Scenario.access_token)
         (snd (POST_logout Scenario.env (Scenario.bearing Scenario.access_token)
                 Scenario.w1))) =
    Ok (res_json 200 (JObj [ ("success", JBool true); ("user", JStr "u1") ])) /\
  fst (protected Scenario.env Scenario.whoami
         (Scenario.bearing Scenario.access_token)
         (snd (POST_logout Scenario.env (Scenario.bearing Scenario.access_token)
                 Scenario.w1))) <>
    Ok invalid_session.
Proof.
  rewrite POST_logout_changes_nothing. cbn [snd].
  repeat split; try (vm_compute; reflexivity).
  vm_compute. intros H. discriminate H.
Qed.

(** ** Frame rules *)

Section Frames.

Variable P : World -> World -> Prop.
Hypothesis P_refl : forall w, P w w.
Hypothesis P_trans : forall w1 w2 w3, P w1 w2 -> P w2 w3 -> P w1 w3.

Lemma preserves_ret {A} (a : A) : preserves P (ret a).
Proof. intros w. apply P_refl. Qed.

Lemma preserves_throw {A} e : preserves P (@throw A e).
Proof. intros w. apply P_refl. Qed.

Lemma preserves_lift {A} (o : outcome A) : preserves P (lift o).
Proof. intros w. apply P_refl. Qed.

Lemma preserves_get_world : preserves P get_world.
Proof. intros w. apply P_refl. Qed.

Lemma preserves_bind {A B} (m : M A) (k : A -> M B) :
  preserves P m -> (forall a, preserves P (k a)) -> preserves P (bind m k).
Proof.
  intros Hm Hk w. unfold bind. specialize (Hm w).
  destruct (m w) as [[a | e] w']; cbn [snd] in *; [| done].
  eapply P_trans; [exact Hm | apply Hk].
Qed.

Lemma preserves_try_catch {A} (m : M A) (h : string -> M A) :
  preserves P m -> (forall e, preserves P (h e)) -> preserves P (try_catch m h).
Proof.
  intros Hm Hh w. unfold try_catch. specialize (Hm w).
  destruct (m w) as [[a | e] w']; cbn [snd] in *; [done |].
  eapply P_trans; [exact Hm | apply Hh].
Qed.

Lemma preserves_try_finally {A} (m : M A) (c : M unit) :
  preserves P m -> preserves P c -> preserves P (try_finally m c).
Proof.
  intros Hm Hc w. unfold try_finally. specialize (Hm w).
  destruct (m w) as [r w']. specialize (Hc w').
  destruct (c w') as [[[] | e] w'']; cbn [snd] in *; eapply P_trans; eauto.
Qed.

End Frames.

Lemma returns_ret {A} (a : A) : returns (ret a).
Proof. intros w. by exists a. Qed.

Lemma returns_bind {A B} (m : M A) (k : A -> M B) :
  returns m -> (forall a, returns (k a)) -> returns (bind m k).
Proof.
  intros Hm Hk w. unfold bind. destruct (Hm w) as [a Ha].
  destruct (m w) as [o w']. cbn in Ha. subst o. apply Hk.
Qed.

Lemma returns_try_catch {A} (m : M A) (h : string -> M A) :
  (forall e, returns (h e)) -> returns (try_catch m h).
Proof.
  intros Hh w. unfold try_catch. destruct (m w) as [[a | e] w']; [by exists a |].
  apply Hh.
Qed.

Lemma keeps_key_refl k w : keeps_key k w w.
Proof. reflexivity. Qed.

Lemma keeps_key_trans k w1 w2 w3 :
  keeps_key k w1 w2 -> keeps_key k w2 w3 -> keeps_key k w1 w3.
Proof. unfold keeps_key. congruence. Qed.

(** A computation that leaves the whole keyspace alone keeps every key. *)
Lemma keeps_key_of_redis {A} k (m : M A) :
  (forall w, redis (snd (m w)) = redis w) -> preserves (keeps_key k) m.
Proof. intros H w. unfold keeps_key. by rewrite H. Qed.

Lemma logger_keeps k lv t err : preserves (keeps_key k) (logger lv t err).
Proof. by apply keeps_key_of_redis. Qed.

Lemma executeQuery_keeps {A} E k (q : statement A) :
  preserves (keeps_key k) (executeQuery E q).
Proof.
  apply keeps_key_of_redis. intros w. rewrite executeQuery_run.
  destruct (db_fault E (db_ops w)); [done |].
  destruct (db_fault E (S (db_ops w))); [done |].
  by destruct (q (now w) (db w)) as [[a d] | e].
Qed.

Lemma setCache_keeps E k key v ttl :
  k <> key -> preserves (keeps_key k) (setCache E key v ttl).
Proof.
  intros Hk w. destruct (setCache_run E key v ttl w) as (l & r & n & Hrun & Hr).
  rewrite Hrun. unfold keeps_key. cbn. by apply Hr.
Qed.

Lemma getCache_keeps E k key : preserves (keeps_key k) (getCache E key).
Proof.
  apply keeps_key_of_redis. intros w.
  destruct (getCache_run E key w) as [l ->]. reflexivity.
Qed.

Lemma deleteCache_keeps E k key :
  k <> key -> preserves (keeps_key k) (deleteCache E key).
Proof.
  intros Hk w. destruct (deleteCache_run E key w) as [l ->].
  unfold keeps_key. cbn. destruct (redis_fault E _); [done |].
  by rewrite lookup_delete_ne.
Qed.

(** Session keys and counter keys never coincide. *)
Lemma session_key_not_rate_key sid ip : rate_key ip <> "session:" +:+ sid.
Proof. unfold rate_key. cbn. discriminate. Qed.

Lemma rate_key_inj ip ip' : rate_key ip = rate_key ip' -> ip = ip'.
Proof. unfold rate_key. intros H. by simplify_eq/=. Qed.

(** ** What runs behind the gate on the login route *)

Lemma comparePassword_keeps E k pw hash :
  preserves (keeps_key k) (comparePassword E pw hash).
Proof. by apply keeps_key_of_redis. Qed.

Lemma generateSessionId_keeps E k : preserves (keeps_key k) (generateSessionId E).
Proof. by apply keeps_key_of_redis. Qed.

Lemma generateTokens_keeps E k uid sid :
  preserves (keeps_key k) (generateTokens E uid sid).
Proof. by apply keeps_key_of_redis. Qed.

Ltac keeps_step :=
  first
    [ apply preserves_ret; apply keeps_key_refl
    | apply preserves_throw; apply keeps_key_refl
    | apply preserves_lift; apply keeps_key_refl
    | apply preserves_get_world; apply keeps_key_refl
    | apply logger_keeps
    | apply executeQuery_keeps
    | apply getCache_keeps
    | apply comparePassword_keeps
    | apply generateSessionId_keeps
    | apply generateTokens_keeps
    | apply setCache_keeps; apply session_key_not_rate_key
    | apply preserves_bind; [apply keeps_key_trans | | intros ?]
    | apply preserves_try_catch; [apply keeps_key_trans | | intros ?]
    | apply preserves_try_finally; [apply keeps_key_trans | |] ].

(** The login handler writes session keys only: every counter key is left
    alone. *)
Lemma login_chain_keeps E ip req :
  preserves (keeps_key (rate_key ip)) (login_chain E req).
Proof.
  unfold login_chain, run_chain, loginValidation.
  apply preserves_bind; [apply keeps_key_trans | keeps_step |].
  intros [req' | res]; [| keeps_step].
  unfold login_handler, setSession.
  destruct (validation_errors req'); repeat keeps_step.
  destruct a as [| row rest]; repeat keeps_step.
  destruct (negb (u_is_active row)); repeat keeps_step.
  destruct (negb a); repeat keeps_step.
Qed.

(** The login handler never answers 429. *)
Lemma login_chain_not_429 E req w :
  fst (login_chain E req w) <> Ok rate_limited.
Proof.
  unfold login_chain, run_chain, loginValidation, bind, ret. cbn [fst snd].
  unfold login_handler.
  match goal with
  | |- fst (try_catch ?m ?h ?w) <> _ =>
      unfold try_catch; destruct (m w) as [[r | e] w'] eqn:Hm
  end.
  2:{ cbn. discriminate. }
  cbn [fst]. revert Hm.
  destruct (validation_errors _); [| intros [= <- _]; discriminate].
  unfold bind at 1.
  destruct (executeQuery E _ w) as [[rows | e] w1]; [| discriminate].
  destruct rows as [| row rest]; [intros [= <- _]; discriminate |].
  destruct (negb (u_is_active row)); [intros [= <- _]; discriminate |].
  unfold bind at 1.
  destruct (comparePassword E _ _ w1) as [[ok | e] w2]; [| discriminate].
  destruct (negb ok); [intros [= <- _]; discriminate |].
  unfold bind at 1.
  destruct (generateSessionId E w2) as [[sid | e] w3]; [| discriminate].
  unfold bind at 1.
  destruct (generateTokens E _ sid w3) as [[tokens | e] w4]; [| discriminate].
  unfold bind at 1.
  destruct (setSession E sid _ w4) as [[[] | e] w5]; [| discriminate].
  unfold bind at 1.
  destruct (executeQuery E _ w5) as [[[] | e] w6]; [| discriminate].
  unfold bind at 1.
  destruct (logger _ _ _ w6) as [[[] | e] w7]; [| discriminate].
  unfold bind, get_world, ret. intros [= <- _]. discriminate.
Qed.

(** ** Counting attempts *)

Ltac rsimpl :=
  cbn [live expires value now redis redis_ops with_redis with_redis_ops at_time
       fst snd].

Lemma counter_is_keeps addr t0 c w w' :
  keeps_key (rate_key addr) w w' -> counter_is addr t0 c w -> counter_is addr t0 c w'.
Proof. unfold keeps_key, counter_is. intros ->. done. Qed.

(** One more attempt from the counted address, with Redis answering: the
    counter goes up by one and the gate answers by its new value. *)
Lemma gate_counts E addr t0 c t req w :
  (forall n, redis_fault E n = false) ->
  ip req = addr ->
  counter_is addr t0 c w ->
  t0 <= t < t0 + 900 ->
  Z.of_nat c < 2 ^ 63 - 1 ->
  exists w',
    authRateLimit E req (at_time t w) =
      (Ok (if 5 <? Z.of_nat (S c) then Respond rate_limited else Next req), w') /\
    counter_is addr t0 (S c) w'.
Proof.
  intros Hok Hip Hc Ht Hbound.
  assert (Hinc : exists w',
            incrementRateLimit E (rate_key (ip req)) (15 * 60 * 1000) (at_time t w) =
              (Ok (Z.of_nat (S c)), w') /\ counter_is addr t0 (S c) w').
  { rewrite Hip.
    unfold incrementRateLimit, client_incr, client_expire, redis_command, try_catch,
      bind, ret, logger, modify, redis_lookup.
    rsimpl. rewrite !Hok.
    destruct c as [| c'].
    - cbv [counter_is] in Hc. rewrite Hc. rsimpl.
      rewrite Z.eqb_refl. rsimpl.
      rewrite Hok, lookup_insert_eq. rsimpl.
      eexists. split; [reflexivity |].
      cbv [counter_is]. rsimpl. exists t. split; [lia |].
      rewrite insert_insert_eq, lookup_insert_eq. reflexivity.
    - cbv [counter_is] in Hc. destruct Hc as (t1 & Ht1 & Hc). rewrite Hc. rsimpl.
      assert ((t <? t1 + 900) = true) as -> by lia. rsimpl.
      assert ((2 ^ 63 - 1 <=? Z.of_nat (S c')) = false) as ->
        by (apply Z.leb_gt; exact Hbound).
      rsimpl.
      assert ((Z.of_nat (S c') + 1 =? 1) = false) as -> by (apply Z.eqb_neq; lia).
      rsimpl.
      eexists. split.
      + replace (Z.of_nat (S (S c'))) with (Z.of_nat (S c') + 1) by lia. reflexivity.
      + cbv [counter_is]. rsimpl. exists t1. split; [done |].
        rewrite lookup_insert_eq.
        replace (Z.of_nat (S (S c'))) with (Z.of_nat (S c') + 1) by lia. reflexivity. }
  destruct Hinc as (w' & Hinc & Hc'). exists w'. split; [| done].
  by apply authRateLimit_run.
Qed.

(** An attempt from another address leaves the counter alone. *)
Lemma gate_other E addr t0 c t req w :
  ip req <> addr ->
  counter_is addr t0 c w ->
  counter_is addr t0 c (snd (authRateLimit E req (at_time t w))).
Proof.
  intros Hip Hc.
  destruct (authRateLimit_frame E req (at_time t w)) as (_ & _ & Hkeys).
  eapply counter_is_keeps; [| exact Hc].
  unfold keeps_key. rewrite Hkeys; [reflexivity |].
  intros Heq. apply rate_key_inj in Heq. congruence.
Qed.

Lemma gated_run E rest h w s w1 :
  authRateLimit E (express_req h) w = (Ok s, w1) ->
  gated E rest h w =
  match s with
  | Next req => rest req w1
  | Respond res => (Ok res, w1)
  end.
Proof.
  intros Hgate. unfold gated, run_chain. erewrite bind_ok by exact Hgate.
  by destruct s.
Qed.

(** *** What runs behind the gate on the register route *)

Lemma hashPassword_keeps L k password : preserves (keeps_key k) (hashPassword L password).
Proof. by apply keeps_key_of_redis. Qed.

Lemma register_chain_run E L firstName lastName req :
  register_chain E L firstName lastName req =
  register_handler E L (trim L firstName) (trim L lastName)
    (with_validation (normalizeEmail E (body_email req))
       ((if isEmail E (body_email req) then []
         else ["Please provide a valid email address"]) ++
        (if (8 <=? String.length (body_password req))%nat then []
         else ["Password must be at least 8 characters long"]) ++
        (if password_pattern L (body_password req) then []
         else ["Password must contain at least one uppercase letter, one lowercase letter, one number, and one special character"]) ++
        (if name_length_ok (trim L firstName) then []
         else ["First name must be between 2 and 50 characters"]) ++
        (if name_length_ok (trim L lastName) then []
         else ["Last name must be between 2 and 50 characters"]))
       req).
Proof. reflexivity. Qed.

(** The register handler writes session keys only: every counter key is
    left alone. *)
Lemma register_chain_keeps E L firstName lastName ip req :
  preserves (keeps_key (rate_key ip)) (register_chain E L firstName lastName req).
Proof.
  rewrite register_chain_run. unfold register_handler, setSession.
  match goal with
  | |- context [validation_errors ?r] => destruct (validation_errors r)
  end; repeat keeps_step.
  destruct a as [| row rest]; repeat (first [apply hashPassword_keeps | keeps_step]).
  destruct a1 as [| row rest]; repeat keeps_step.
Qed.

Section Answers.

Variable P : response -> Prop.

Lemma answers_ret r : P r -> answers_only P (ret r).
Proof. intros Hr w r' [= <-]. exact Hr. Qed.

Lemma answers_throw e : answers_only P (throw e).
Proof. intros w r Hr. discriminate Hr. Qed.

Lemma answers_bind {A} (m : M A) (k : A -> M response) :
  (forall a, answers_only P (k a)) -> answers_only P (bind m k).
Proof.
  intros Hk w r. unfold bind. destruct (m w) as [[a | e] w']; [apply Hk | discriminate].
Qed.

Lemma answers_try_catch (m : M response) (h : string -> M response) :
  answers_only P m -> (forall e, answers_only P (h e)) -> answers_only P (try_catch m h).
Proof.
  intros Hm Hh w r. unfold try_catch. pose proof (Hm w) as Hmw.
  destruct (m w) as [[a | e] w']; [apply Hmw | apply Hh].
Qed.

End Answers.

Ltac answers_step :=
  first
    [ apply answers_ret; let H := fresh in
      intros H; apply (f_equal status) in H; discriminate H
    | apply answers_throw
    | apply answers_bind; intros ?
    | apply answers_try_catch; [| intros ?] ].

(** The register handler never answers 429. *)
Lemma register_chain_not_429 E L firstName lastName req w :
  fst (register_chain E L firstName lastName req w) <> Ok rate_limited.
Proof.
  assert (H : answers_only (fun r => r <> rate_limited)
                (register_chain E L firstName lastName req)).
  { rewrite register_chain_run. unfold register_handler.
    match goal with
    | |- context [validation_errors ?r] => destruct (validation_errors r)
    end; repeat answers_step.
    destruct a as [| row rest]; repeat answers_step.
    destruct a1 as [| row rest]; repeat answers_step. }
  intros Hr. by apply (H w rate_limited).
Qed.

(** *** Sequences of attempts *)

Lemma auth_route_gated E L a :
  auth_route E L a = gated E (behind_gate E L a) (sender a).
Proof. by destruct a. Qed.

Lemma behind_gate_keeps E L a addr req :
  preserves (keeps_key (rate_key addr)) (behind_gate E L a req).
Proof. destruct a; [apply login_chain_keeps | apply register_chain_keeps]. Qed.

Lemma behind_gate_not_429 E L a req w :
  fst (behind_gate E L a req w) <> Ok rate_limited.
Proof. destruct a; [apply login_chain_not_429 | apply register_chain_not_429]. Qed.

Lemma attempts_from_app addr reqs1 reqs2 :
  attempts_from addr (reqs1 ++ reqs2) =
  (attempts_from addr reqs1 + attempts_from addr reqs2)%nat.
Proof. unfold attempts_from. rewrite filter_app, length_app. lia. Qed.

Lemma attempts_from_le addr reqs : (attempts_from addr reqs <= length reqs)%nat.
Proof. unfold attempts_from. apply length_filter. Qed.

(** The answer to the [i]-th request of a sequence is what the route gives
    in the world the earlier requests have left. *)
Lemma serve_lookup {R} (route : R -> M response) reqs :
  forall w i t a,
    reqs !! i = Some (t, a) ->
    fst (serve route reqs w) !! i =
    Some (fst (route a (at_time t (world_before route reqs i w)))).
Proof.
  unfold world_before.
  induction reqs as [| [t1 a1] reqs IH]; intros w i t a Hi.
  { by rewrite lookup_nil in Hi. }
  cbn [serve].
  destruct (route a1 (at_time t1 w)) as [r1 w1] eqn:Hrun.
  destruct i as [| i].
  - cbn in Hi. simplify_eq. rewrite take_0. cbn [serve snd].
    destruct (serve route reqs w1) as [rs w2]. cbn. by rewrite Hrun.
  - cbn in Hi. rewrite firstn_cons. cbn [serve]. rewrite Hrun.
    specialize (IH w1 i t a Hi).
    destruct (serve route reqs w1) as [rs w2].
    destruct (serve route (take i reqs) w1) as [rs' w2'].
    cbn [fst snd] in *. exact IH.
Qed.

(** Serving one attempt, with Redis answering: the counter of an address
    goes up by one when the attempt comes from it, and is left alone
    otherwise. *)
Lemma auth_route_counts E L addr t0 c t a w :
  (forall n, redis_fault E n = false) ->
  counter_is addr t0 c w ->
  t0 <= t < t0 + 900 ->
  Z.of_nat c < 2 ^ 63 - 1 ->
  counter_is addr t0 (if decide (h_ip (sender a) = addr) then S c else c)
    (snd (auth_route E L a (at_time t w))).
Proof.
  intros Hup Hc Ht Hbound. rewrite auth_route_gated.
  destruct (decide (h_ip (sender a) = addr)) as [Hip | Hip].
  - destruct (gate_counts E addr t0 c t (express_req (sender a)) w Hup Hip Hc Ht Hbound)
      as (w1 & Hgate & Hc1).
    rewrite (gated_run E _ (sender a) _ _ w1 Hgate).
    destruct (5 <? Z.of_nat (S c)); [exact Hc1 |].
    eapply counter_is_keeps; [apply behind_gate_keeps | exact Hc1].
  - pose proof (gate_other E addr t0 c t (express_req (sender a)) w Hip Hc) as Hc1.
    destruct (authRateLimit_frame E (express_req (sender a)) (at_time t w))
      as (Hres & _ & _).
    destruct (authRateLimit E (express_req (sender a)) (at_time t w)) as [o w1] eqn:Hgate.
    cbn [fst snd] in *.
    destruct Hres as [-> | ->]; rewrite (gated_run E _ (sender a) _ _ w1 Hgate); cbn [snd].
    + done.
    + eapply counter_is_keeps; [apply behind_gate_keeps | exact Hc1].
Qed.

(** After a sequence of attempts within one window, the counter of an
    address is the number of attempts that came from it. *)
Lemma serve_counter E L addr t0 reqs :
  (forall n, redis_fault E n = false) ->
  forall c w,
    counter_is addr t0 c w ->
    (forall t a, (t, a) ∈ reqs -> t0 <= t < t0 + 900) ->
    Z.of_nat (c + length reqs) < 2 ^ 63 - 1 ->
    counter_is addr t0 (c + attempts_from addr reqs)
      (snd (serve (auth_route E L) reqs w)).
Proof.
  intros Hup.
  induction reqs as [| [t1 a1] reqs IH]; intros c w Hc Hwin Hbound.
  { cbn. by rewrite Nat.add_0_r. }
  cbn [serve].
  assert (Ht1 : t0 <= t1 < t0 + 900) by (apply (Hwin t1 a1); apply list_elem_of_here).
  assert (Hb1 : Z.of_nat c < 2 ^ 63 - 1) by (cbn [length] in Hbound; lia).
  pose proof (auth_route_counts E L addr t0 c t1 a1 w Hup Hc Ht1 Hb1) as Hone.
  destruct (auth_route E L a1 (at_time t1 w)) as [r1 w1].
  cbn [snd] in Hone.
  assert (Hwin' : forall t a, (t, a) ∈ reqs -> t0 <= t < t0 + 900)
    by (intros ? ? ?; eapply Hwin; by apply list_elem_of_further).
  change ((t1, a1) :: reqs) with ([(t1, a1)] ++ reqs).
  rewrite attempts_from_app.
  unfold attempts_from at 1. rewrite filter_cons, filter_nil. cbn [snd].
  destruct (decide (h_ip (sender a1) = addr)) as [Hip | Hip]; cbn [length].
  - assert (Hb : Z.of_nat (S c + length reqs) < 2 ^ 63 - 1)
      by (cbn [length] in Hbound; lia).
    pose proof (IH (S c) w1 Hone Hwin' Hb) as IH'.
    destruct (serve (auth_route E L) reqs w1) as [rs w2]. cbn [snd] in *.
    by replace (c + (1 + attempts_from addr reqs))%nat
         with (S c + attempts_from addr reqs)%nat by lia.
  - assert (Hb : Z.of_nat (c + length reqs) < 2 ^ 63 - 1)
      by (cbn [length] in Hbound; lia).
    pose proof (IH c w1 Hone Hwin' Hb) as IH'.
    destruct (serve (auth_route E L) reqs w1) as [rs w2]. cbn [snd] in *.
    by replace (c + (0 + attempts_from addr reqs))%nat
         with (c + attempts_from addr reqs)%nat by lia.
Qed.

(** When the gate answers 429, what is mounted behind it does not run: the
    answer and the world are those of the gate alone. *)
Lemma gate_rejects_first E rest h w :
  fst (authRateLimit E (express_req h) w) = Ok (Respond rate_limited) ->
  gated E rest h w = (Ok rate_limited, snd (authRateLimit E (express_req h) w)) /\
  bcrypt_compares (snd (gated E rest h w)) = bcrypt_compares w /\
  rng_ops (snd (gated E rest h w)) = rng_ops w /\
  db (snd (gated E rest h w)) = db w /\
  db_ops (snd (gated E rest h w)) = db_ops w.
Proof.
  intros Hgate.
  destruct (authRateLimit_frame E (express_req h) w) as (_ & Hframe & _).
  destruct (authRateLimit E (express_req h) w) as [o w1] eqn:Hrun.
  cbn [fst snd] in *. subst o.
  rewrite (gated_run E rest h w _ w1 Hrun). cbn [snd].
  unfold cache_only in Hframe. tauto.
Qed.

(** When the gate calls [next()], the answer is that of what is mounted
    behind it. *)
Lemma gate_passes E L a w :
  fst (authRateLimit E (express_req (sender a)) w) = Ok (Next (express_req (sender a))) ->
  passes_gate E L a w.
Proof.
  intros Hgate. unfold passes_gate. split; [exact Hgate |].
  destruct (authRateLimit E (express_req (sender a)) w) as [o w1] eqn:Hrun.
  cbn [fst snd] in *. subst o.
  rewrite auth_route_gated, (gated_run E _ (sender a) w _ w1 Hrun).
  split; [reflexivity | apply behind_gate_not_429].
Qed.

Lemma gate_rejects E L a w :
  fst (authRateLimit E (express_req (sender a)) w) = Ok (Respond rate_limited) ->
  rejected_by_gate E L a w.
Proof.
  intros Hgate. unfold rejected_by_gate. rewrite auth_route_gated.
  split; [exact Hgate |]. by apply gate_rejects_first.
Qed.

(** A failing counter store lets the request through. *)
Lemma authRateLimit_fails_open E req w :
  redis_fault E (redis_ops w) = true ->
  fst (authRateLimit E req w) = Ok (Next req).
Proof.
  intros Hfault.
  unfold authRateLimit, incrementRateLimit, client_incr, redis_command, try_catch,
    bind, ret, logger, modify.
  rewrite Hfault. reflexivity.
Qed.

(** C5.  Attempts on the login and register routes, which share the counter
    of the client address, served one after the other with Redis answering,
    starting with no counter for the address and all arriving within 900
    seconds.  Each of the first five attempts from the address passes the
    gate: [authRateLimit] calls [next()] and the answer is the one of the
    validation chain and handler mounted behind it.  Every later attempt
    from the address is answered with the 429 of the gate, whatever it
    carries, and nothing behind the gate runs for it: no password is compared
    or hashed and no database call is made.  When the counter store fails,
    the gate lets the attempt through. *)
Theorem auth_rate_limit E L :
  (forall addr t0 reqs w,
     (forall n, redis_fault E n = false) ->
     redis w !! rate_key addr = None ->
     (forall t a, (t, a) ∈ reqs -> t0 <= t < t0 + 900) ->
     Z.of_nat (length reqs) < 2 ^ 63 - 1 ->
     forall i t a,
       reqs !! i = Some (t, a) ->
       h_ip (sender a) = addr ->
       fst (serve (auth_route E L) reqs w) !! i =
         Some (fst (auth_route E L a
                      (at_time t (world_before (auth_route E L) reqs i w)))) /\
       ((attempts_from addr (take (S i) reqs) <= 5)%nat ->
        passes_gate E L a (at_time t (world_before (auth_route E L) reqs i w))) /\
       ((5 < attempts_from addr (take (S i) reqs))%nat ->
        rejected_by_gate E L a (at_time t (world_before (auth_route E L) reqs i w)))) /\
  (forall a w,
     redis_fault E (redis_ops w) = true ->
     passes_gate E L a w).
Proof.
  split.
  - intros addr t0 reqs w Hup Hnone Hwin Hbound i t a Hi Hip.
    split; [by apply serve_lookup |].
    assert (Hlen : (i < length reqs)%nat) by (by eapply lookup_lt_Some).
    assert (Hcount : counter_is addr t0 (attempts_from addr (take i reqs))
                       (world_before (auth_route E L) reqs i w)).
    { apply (serve_counter E L addr t0 (take i reqs) Hup 0%nat w Hnone).
      - intros t' a' Hin. apply (Hwin t' a'). by eapply subseteq_take.
      - rewrite length_take. lia. }
    assert (Ht : t0 <= t < t0 + 900).
    { apply (Hwin t a). by eapply list_elem_of_lookup_2. }
    assert (Hb : Z.of_nat (attempts_from addr (take i reqs)) < 2 ^ 63 - 1).
    { pose proof (attempts_from_le addr (take i reqs)) as Hle.
      rewrite length_take in Hle. lia. }
    destruct (gate_counts E addr t0 _ t (express_req (sender a)) _ Hup Hip Hcount Ht Hb)
      as (w1 & Hgate & _).
    rewrite (take_S_r _ _ _ Hi), attempts_from_app.
    unfold attempts_from at 2 4. rewrite filter_cons, filter_nil. cbn [snd].
    rewrite decide_True by exact Hip. cbn [length].
    split.
    + intros Hfive. apply gate_passes. rewrite Hgate. cbn [fst].
      destruct (Z.ltb_spec 5 (Z.of_nat (S (attempts_from addr (take i reqs)))));
        [lia | reflexivity].
    + intros Hfive. apply gate_rejects. rewrite Hgate. cbn [fst].
      destruct (Z.ltb_spec 5 (Z.of_nat (S (attempts_from addr (take i reqs)))));
        [reflexivity | lia].
  - intros a w Hfault. apply gate_passes. by apply authRateLimit_fails_open.
Qed.

(** In the deployment, seven attempts from one address: the fifth, a login
    with the right password, passes the gate and is answered 200; the sixth,
    the same login, and the seventh, a registration, are answered 429 by the
    gate, and the sixth compares no password. *)
Lemma auth_rate_limit_witness :
  (passes_gate Scenario.env Scenario.lib
     (LoginRequest (Scenario.credentials "203.0.113.7" "a@b.com" "Secur3!Pass"))
     (at_time 1004
        (world_before (auth_route Scenario.env Scenario.lib) seven_attempts 4
           Scenario.w0)) /\
   exists r, fst (serve (auth_route Scenario.env Scenario.lib) seven_attempts
                    Scenario.w0) !! 4%nat = Some (Ok r) /\ status r = 200) /\
  (rejected_by_gate Scenario.env Scenario.lib
     (LoginRequest (Scenario.credentials "203.0.113.7" "a@b.com" "Secur3!Pass"))
     (at_time 1005
        (world_before (auth_route Scenario.env Scenario.lib) seven_attempts 5
           Scenario.w0)) /\
   fst (serve (auth_route Scenario.env Scenario.lib) seven_attempts Scenario.w0)
     !! 5%nat = Some (Ok rate_limited)) /\
  fst (serve (auth_route Scenario.env Scenario.lib) seven_attempts Scenario.w0)
    !! 6%nat = Some (Ok rate_limited).
Proof.
  pose proof (proj1 (auth_rate_limit Scenario.env Scenario.lib)
                "203.0.113.7" 1000 seven_attempts Scenario.w0
                (fun _ => eq_refl) eq_refl) as H.
  assert (Hwin : forall t a, (t, a) ∈ seven_attempts -> 1000 <= t < 1000 + 900).
  { intros t a Hin. unfold seven_attempts in Hin.
    repeat (apply elem_of_cons in Hin as [Hin | Hin]; [injection Hin as -> _; lia |]).
    by apply elem_of_nil in Hin. }
  assert (Hbound : Z.of_nat (length seven_attempts) < 2 ^ 63 - 1)
    by (vm_compute; reflexivity).
  specialize (H Hwin Hbound).
  split; [| split].
  - destruct (H 4%nat 1004 _ eq_refl eq_refl) as (_ & Hpass & _).
    split; [apply Hpass; vm_compute; lia |].
    eexists. split; [vm_compute; reflexivity | reflexivity].
  - destruct (H 5%nat 1005 _ eq_refl eq_refl) as (_ & _ & Hreject).
    split; [apply Hreject; vm_compute; lia | vm_compute; reflexivity].
  - vm_compute. reflexivity.
Defined.

(** ** Quotes and sector performance *)

(** [getStockQuote]: its outcome, and its footprint (the cache entry of the
    symbol, the command counter and the log). *)
Lemma getStockQuote_run E symbol w :
  exists w',
    getStockQuote E symbol w = (quote_outcome E w symbol, w') /\
    cache_only w w' /\
    (forall k, k <> "market:quote:" +:+ symbol -> keeps_key k w w').
Proof.
  unfold getStockQuote, getMarketData, setMarketData, quote_outcome, fetched_quote,
    upstream_quote.
  change ("market:" +:+ "quote:" +:+ symbol) with ("market:quote:" +:+ symbol).
  destruct (getCache_run E ("market:quote:" +:+ symbol) w) as [l Hget].
  set (w1 := with_log l (with_redis_ops (S (redis_ops w)) w)) in *.
  unfold try_catch. erewrite bind_ok by exact Hget.
  destruct (Js.truthy (cache_read E w _)).
  { exists w1. by cbn. }
  unfold bind at 1, logger at 1, modify at 1.
  set (w2 := with_log _ w1).
  unfold bind at 1, lift at 1.
  destruct (yahoo_quote E symbol) as [q | e].
  2:{ eexists. split; [reflexivity |]. by cbn. }
  destruct (Js.truthy q); cbn [negb].
  2:{ eexists. split; [reflexivity |]. by cbn. }
  unfold bind at 1, get_world at 1.
  destruct (setCache_run E ("market:quote:" +:+ symbol) (quote_data E q (now w2)) 60 w2)
    as (l' & r & n & Hset & Hr).
  erewrite bind_ok by exact Hset. cbn [ret].
  eexists. split; [reflexivity |]. split; [by cbn |].
  intros k Hk. unfold keeps_key. cbn. by apply Hr.
Qed.

(** A read that finds a quote finds the one the cache can serve. *)
Lemma cache_read_cached_quote E w symbol :
  Js.truthy (cache_read E w ("market:quote:" +:+ symbol)) = true ->
  cached_quote w symbol = Some (cache_read E w ("market:quote:" +:+ symbol)).
Proof.
  unfold cache_read, cached_quote.
  destruct (redis_fault E _); [done |].
  destruct (redis_lookup w _) as [e |]; [| done].
  destruct (stored_truthy (value e)); [| done].
  cbn. by intros ->.
Qed.

Lemma cache_read_cold E w symbol :
  cached_quote w symbol = None ->
  Js.truthy (cache_read E w ("market:quote:" +:+ symbol)) = false.
Proof.
  intros Hcold. destruct (Js.truthy _) eqn:Ht; [| done].
  apply cache_read_cached_quote in Ht. congruence.
Qed.

(** [cached_quote] reads the clock and one key. *)
Lemma cached_quote_frame w w' symbol :
  now w' = now w ->
  keeps_key ("market:quote:" +:+ symbol) w w' ->
  cached_quote w' symbol = cached_quote w symbol.
Proof.
  unfold cached_quote, redis_lookup, keeps_key. by intros -> ->.
Qed.

Lemma quote_key_inj s1 s2 : "market:quote:" +:+ s1 = "market:quote:" +:+ s2 -> s1 = s2.
Proof. intros H. by simplify_eq/=. Qed.

Lemma js_set_fresh fields k v :
  k ∉ map fst fields -> Js.set fields k v = fields ++ [(k, v)].
Proof.
  induction fields as [| [k' v'] fields IH]; intros Hk; [reflexivity |].
  cbn [Js.set]. destruct (String.eqb_spec k' k) as [-> | _].
  - exfalso. apply Hk. cbn. apply list_elem_of_here.
  - rewrite IH; [reflexivity |]. intros Hin. apply Hk. cbn.
    by apply list_elem_of_further.
Qed.

(** The loop over the ETFs: it never throws, appends one field per ETF in
    order, and each field is right for its ETF. *)
Lemma sector_loop_run E w0 entries :
  forall acc w,
    NoDup (map fst entries) ->
    NoDup (map snd entries) ->
    (forall p, p ∈ entries -> snd p ∉ map fst acc) ->
    now w = now w0 ->
    (forall p, p ∈ entries -> keeps_key ("market:quote:" +:+ fst p) w0 w) ->
    exists fields w',
      sector_loop E entries acc w = (Ok (acc ++ fields), w') /\
      Forall2 (entry_of E w0) entries fields /\
      ((forall p, p ∈ entries -> cached_quote w0 (fst p) = None) ->
       fields = map (fun p => (snd p, fetched_entry E (now w0) (fst p) (snd p))) entries).
Proof.
  induction entries as [| [etf name] entries IH];
    intros acc w Hetfs Hnames Hfresh Hnow Hkeys.
  { exists [], w. cbn. rewrite app_nil_r. by repeat split. }
  cbn [map fst snd] in Hetfs, Hnames.
  apply NoDup_cons in Hetfs as [Hetf Hetfs].
  apply NoDup_cons in Hnames as [Hname Hnames].
  destruct (getStockQuote_run E etf w) as (w1 & Hq & Hframe & Hothers).
  assert (Hcached : cached_quote w etf = cached_quote w0 etf).
  { apply cached_quote_frame; [done |].
    apply (Hkeys (etf, name)), list_elem_of_here. }
  (* the entry this iteration stores, and the world it leaves *)
  assert (Hentry : exists entry w2,
            try_catch
              (quote <- getStockQuote E etf ;; ret (sector_entry etf name quote))
              (fun error =>
                 logger Error ("Error fetching " +:+ etf +:+ ":") (Some error) ;;
                 ret (error_marker error)) w = (Ok entry, w2) /\
            now w2 = now w0 /\
            (forall k, k <> "market:quote:" +:+ etf -> keeps_key k w w2) /\
            entry_of E w0 (etf, name) (name, entry) /\
            (cached_quote w0 etf = None ->
             entry = fetched_entry E (now w0) etf name)).
  { unfold try_catch, bind. rewrite Hq. unfold quote_outcome, fetched_entry.
    destruct Hframe as (Hnow1 & _).
    destruct (Js.truthy (cache_read E w _)) eqn:Hhit.
    - exists (sector_entry etf name (cache_read E w ("market:quote:" +:+ etf))), w1.
      split; [reflexivity |]. split; [congruence |]. split; [done |].
      pose proof (cache_read_cached_quote E w etf Hhit) as Hc. split.
      + split; [reflexivity |]. right. eexists. split; [| reflexivity].
        cbn [fst]. congruence.
      + intros Hcold. congruence.
    - rewrite Hnow. destruct (fetched_quote E (now w0) etf) as [q | e] eqn:Hf.
      + exists (sector_entry etf name q), w1.
        split; [reflexivity |]. split; [congruence |]. split; [done |].
        unfold entry_of, fetched_entry. cbn [fst snd]. rewrite Hf. auto.
      + eexists (error_marker e), _. split; [reflexivity |].
        split; [cbn; congruence |]. split.
        { intros k Hk. unfold keeps_key. cbn. by apply Hothers. }
        unfold entry_of, fetched_entry. cbn [fst snd]. rewrite Hf. auto. }
  destruct Hentry as (entry & w2 & Hrun & Hnow2 & Hkeep2 & Hok & Hcold).
  assert (Hset : Js.set acc name entry = acc ++ [(name, entry)]).
  { apply js_set_fresh. apply (Hfresh (etf, name)), list_elem_of_here. }
  destruct (IH (acc ++ [(name, entry)]) w2 Hetfs Hnames) as (fields & w' & Hloop & Hall & Hcolds).
  { intros p Hp. rewrite map_app. cbn [map fst]. intros Hin.
    apply elem_of_app in Hin as [Hin | Hin].
    - exact (Hfresh p (list_elem_of_further _ _ _ Hp) Hin).
    - apply list_elem_of_singleton in Hin. apply Hname. rewrite <- Hin.
      apply list_elem_of_fmap. by exists p. }
  { done. }
  { intros p Hp. eapply keeps_key_trans.
    - apply (Hkeys p). by apply list_elem_of_further.
    - apply Hkeep2. intros Heq. apply quote_key_inj in Heq. apply Hetf.
      rewrite <- Heq. apply list_elem_of_fmap. by exists p. }
  exists ((name, entry) :: fields), w'. split; [| split].
  - cbn [sector_loop]. erewrite bind_ok by exact Hrun. rewrite Hset, Hloop.
    by rewrite <- app_assoc.
  - by constructor.
  - intros Hallcold. cbn [map fst snd]. f_equal.
    + f_equal. apply Hcold. apply (Hallcold (etf, name)), list_elem_of_here.
    + apply Hcolds. intros p Hp. apply Hallcold. by apply list_elem_of_further.
Qed.

Lemma sectorETFs_distinct :
  NoDup (map fst sectorETFs) /\ NoDup (map snd sectorETFs).
Proof.
  split.
  - apply (bool_decide_unpack (NoDup (map fst sectorETFs))). vm_compute. exact I.
  - apply (bool_decide_unpack (NoDup (map snd sectorETFs))). vm_compute. exact I.
Qed.

(** The marker of a fetched entry says whether the provider failed. *)
Lemma fetched_entry_marker E t pair :
  is_error_marker (fetched_entry E t (fst pair) (snd pair)) = upstream_fails E pair /\
  is_sector_entry (fetched_entry E t (fst pair) (snd pair)) =
    negb (upstream_fails E pair).
Proof.
  unfold fetched_entry, fetched_quote, upstream_fails.
  by destruct (upstream_quote E (fst pair)).
Qed.

Lemma filter_map_length {A B} (p : B -> bool) (q : A -> bool) (g : A -> B) l :
  (forall a, p (g a) = q a) ->
  length (List.filter p (map g l)) = length (List.filter q l).
Proof.
  intros Hpq. induction l as [| a l IH]; [reflexivity |].
  cbn. rewrite Hpq. destruct (q a); cbn; by rewrite IH.
Qed.

(** C8.  [getSectorPerformance] never throws.  On a miss of the aggregate it
    returns a map with one field per sector ETF, in the order of the table;
    each field is either the entry built from a quote (fetched, or served by
    the quote cache) or the error marker carrying the message of the failed
    fetch.  When no quote is cached, the map is determined by the provider:
    the ETFs for which it fails carry the marker, all others a quote-derived
    entry, so the markers number the failures and the entries the rest. *)
Theorem getSectorPerformance_partial_failure E w :
  (exists v, fst (getSectorPerformance E w) = Ok v) /\
  (Js.truthy (cache_read E w "market:sector_performance") = false ->
   exists sectors,
     fst (getSectorPerformance E w) = Ok (JObj sectors) /\
     Forall2 (entry_of E w) sectorETFs sectors /\
     ((forall p, p ∈ sectorETFs -> cached_quote w (fst p) = None) ->
      sectors =
        map (fun p => (snd p, fetched_entry E (now w) (fst p) (snd p))) sectorETFs /\
      length (List.filter (fun f => is_error_marker (snd f)) sectors) =
        length (List.filter (upstream_fails E) sectorETFs) /\
      (length (List.filter (fun f => is_sector_entry (snd f)) sectors) +
       length (List.filter (upstream_fails E) sectorETFs) = 10)%nat)).
Proof.
  unfold getSectorPerformance, getMarketData, setMarketData.
  change ("market:" +:+ "sector_performance") with "market:sector_performance".
  destruct (getCache_run E "market:sector_performance" w) as [l Hget].
  set (w1 := with_log l (with_redis_ops (S (redis_ops w)) w)) in *.
  destruct sectorETFs_distinct as [Hetfs Hnames].
  destruct (sector_loop_run E w sectorETFs [] w1 Hetfs Hnames)
    as (sectors & w2 & Hloop & Hall & Hcold).
  { intros p _ Hin. by apply elem_of_nil in Hin. }
  { reflexivity. }
  { intros p _. reflexivity. }
  cbn [app] in Hloop.
  destruct (setCache_run E "market:sector_performance" (JObj sectors) 300 w2)
    as (l' & r & n & Hset & _).
  unfold try_catch. erewrite bind_ok by exact Hget.
  destruct (Js.truthy (cache_read E w "market:sector_performance")).
  { split; [by eexists | done]. }
  erewrite bind_ok by exact Hloop. erewrite bind_ok by exact Hset. cbn [ret fst].
  split; [by eexists |]. intros _. exists sectors. split; [reflexivity |].
  split; [exact Hall |]. intros Hnone. specialize (Hcold Hnone). subst sectors.
  split; [reflexivity |].
  assert (Herr : length (List.filter (fun f => is_error_marker (snd f))
                   (map (fun p => (snd p, fetched_entry E (now w) (fst p) (snd p)))
                      sectorETFs)) =
                 length (List.filter (upstream_fails E) sectorETFs)).
  { apply filter_map_length. intros p. apply fetched_entry_marker. }
  assert (Hval : length (List.filter (fun f => is_sector_entry (snd f))
                   (map (fun p => (snd p, fetched_entry E (now w) (fst p) (snd p)))
                      sectorETFs)) =
                 length (List.filter (fun p => negb (upstream_fails E p)) sectorETFs)).
  { apply filter_map_length. intros p. apply fetched_entry_marker. }
  split; [exact Herr |]. rewrite Hval.
  pose proof (List.filter_length (upstream_fails E) sectorETFs) as Hlen.
  change (length sectorETFs) with 10%nat in Hlen. lia.
Qed.

Lemma getSectorPerformance_partial_failure_witness :
  exists sectors,
    fst (getSectorPerformance Scenario.env Scenario.w0) = Ok (JObj sectors) /\
    Js.own sectors "Energy" =
      Some (error_marker "Failed to fetch quote for XLE: Too Many Requests") /\
    length (List.filter (fun f => is_error_marker (snd f)) sectors) = 1%nat /\
    length (List.filter (fun f => is_sector_entry (snd f)) sectors) = 9%nat.
Proof.
  destruct (proj2 (getSectorPerformance_partial_failure Scenario.env Scenario.w0)
              eq_refl) as (sectors & Hres & _ & Hcold).
  destruct Hcold as (Hmap & Herr & Hval).
  { intros p Hp. unfold sectorETFs in Hp.
    repeat (apply elem_of_cons in Hp as [-> | Hp]; [reflexivity |]).
    by apply elem_of_nil in Hp. }
  exists sectors. split; [exact Hres |].
  split; [rewrite Hmap; vm_compute; reflexivity |].
  split.
  - rewrite Herr. vm_compute. reflexivity.
  - assert (length (List.filter (upstream_fails Scenario.env) sectorETFs) = 1%nat)
      as Hone by (vm_compute; reflexivity).
    lia.
Defined.

(** ** Storing historical bars *)

Lemma cache_only_refl w : cache_only w w.
Proof. by unfold cache_only. Qed.

Lemma cache_only_trans w1 w2 w3 :
  cache_only w1 w2 -> cache_only w2 w3 -> cache_only w1 w3.
Proof. unfold cache_only. intuition congruence. Qed.

Lemma logger_cache_only lv t err : preserves cache_only (logger lv t err).
Proof. intros w. by unfold cache_only. Qed.

Lemma getCache_cache_only E key : preserves cache_only (getCache E key).
Proof. intros w. destruct (getCache_run E key w) as [l ->]. by unfold cache_only. Qed.

Lemma setCache_cache_only E key v ttl : preserves cache_only (setCache E key v ttl).
Proof.
  intros w. destruct (setCache_run E key v ttl w) as (l & r & n & -> & _).
  by unfold cache_only.
Qed.

Ltac cache_only_step :=
  first
    [ apply preserves_ret; apply cache_only_refl
    | apply preserves_throw; apply cache_only_refl
    | apply preserves_lift; apply cache_only_refl
    | apply preserves_get_world; apply cache_only_refl
    | apply logger_cache_only
    | apply getCache_cache_only
    | apply setCache_cache_only
    | apply preserves_bind; [apply cache_only_trans | | intros ?]
    | apply preserves_try_catch; [apply cache_only_trans | | intros ?] ].

(** [getCompanyInfo] touches only the cache, the command counter and the
    log. *)
Lemma getCompanyInfo_cache_only E symbol : preserves cache_only (getCompanyInfo E symbol).
Proof.
  unfold getCompanyInfo, getMarketData, setMarketData.
  repeat cache_only_step.
  destruct (Js.truthy a); repeat cache_only_step.
  destruct (negb (Js.truthy a1)); repeat cache_only_step.
Qed.

(** The price statements of a batch, run on a client inside a transaction:
    they work on the snapshot and leave the committed tables alone; they all
    go through exactly when no call fails and no statement is refused. *)
Lemma price_loop_run E symbol data :
  forall w t,
    db_txn w = Some t ->
    exists o w',
      price_loop E symbol data w = (o, w') /\
      db w' = db w /\ now w' = now w /\
      ((o = Ok tt /\
        (forall k, (k < length data)%nat -> db_fault E (db_ops w + k)%nat = false) /\
        db_ops w' = (db_ops w + length data)%nat /\ log w' = log w /\
        exists t', apply_prices symbol data (now w) t = Ok t' /\ db_txn w' = Some t') \/
       ((exists e, o = Throw e) /\
        ((exists k, (k < length data)%nat /\ db_fault E (db_ops w + k)%nat = true) \/
         (exists e, apply_prices symbol data (now w) t = Throw e)))).
Proof.
  induction data as [| row data IH]; intros w t Htxn.
  { exists (Ok tt), w. cbn. split; [done |]. repeat split. left.
    split; [done |]. split; [intros k Hk; lia |]. split; [lia |]. split; [done |]. eauto. }
  cbn [price_loop apply_prices length]. unfold bind, client_query, db_call.
  destruct (db_fault E (db_ops w)) eqn:Hf.
  { do 2 eexists. split; [reflexivity |]. cbn. repeat split. right.
    split; [eauto |]. left. exists 0%nat. split; [lia |]. by rewrite Nat.add_0_r. }
  cbn [db_txn with_db_ops now db]. rewrite Htxn.
  destruct (upsert_price symbol row (now w) t) as [[[] t1] | e].
  2:{ do 2 eexists. split; [reflexivity |]. cbn. repeat split. right.
      split; [eauto |]. right. eauto. }
  match goal with
  | |- context [price_loop E symbol data ?w1] =>
      destruct (IH w1 t1 eq_refl) as (o & w' & Hrun & Hdb & Hnow & Hres)
  end.
  rewrite Hrun. exists o, w'. split; [reflexivity |].
  cbn in Hdb, Hnow, Hres. split; [done |]. split; [done |].
  destruct Hres as [(-> & Hup & Hops & Hlog & t' & Happly & Htxn') |
                    (Hthrow & [(k & Hk & Hfk) | [e He]])].
  - left. split; [done |]. split; [| split; [lia | split; [done | eauto]]].
    intros [| k] Hk; [by rewrite Nat.add_0_r |].
    replace (db_ops w + S k)%nat with (S (db_ops w) + k)%nat by lia. apply Hup. lia.
  - right. split; [done |]. left. exists (S k). split; [lia |].
    by replace (db_ops w + S k)%nat with (S (db_ops w) + k)%nat by lia.
  - right. split; [done |]. right. eauto.
Qed.

Lemma getCompanyInfo_run E symbol w :
  exists w',
    getCompanyInfo E symbol w = (company_outcome E w symbol, w') /\
    cache_only w w'.
Proof.
  pose proof (getCompanyInfo_cache_only E symbol w) as Hframe.
  destruct (getCompanyInfo E symbol w) as [o w'] eqn:Hrun. cbn [snd] in Hframe.
  exists w'. split; [| done]. f_equal. revert Hrun.
  unfold getCompanyInfo, getMarketData, setMarketData, company_outcome, upstream_info.
  change ("market:" +:+ "company_info:" +:+ symbol)
    with ("market:company_info:" +:+ symbol).
  destruct (getCache_run E ("market:company_info:" +:+ symbol) w) as [l Hget].
  unfold try_catch. erewrite bind_ok by exact Hget.
  set (w1 := with_log l (with_redis_ops (S (redis_ops w)) w)) in *.
  destruct (Js.truthy (cache_read E w _)); [by intros [= <- _] |].
  unfold bind at 1, logger at 1, modify at 1.
  set (w2 := with_log _ w1).
  unfold bind at 1, lift at 1.
  destruct (yahoo_info E symbol) as [i | e]; [| by intros [= <- _]].
  destruct (Js.truthy i); cbn [negb]; [| by intros [= <- _]].
  unfold bind at 1, get_world at 1.
  destruct (setCache_run E ("market:company_info:" +:+ symbol)
              (company_data E i (now w2)) 3600 w2) as (l' & r & n & Hset & _).
  erewrite bind_ok by exact Hset. by intros [= <- _].
Qed.

(** The transaction of [storeStockData], from BEGIN to COMMIT: when its
    calls go through, the company lookup answers and no statement is refused,
    it commits the whole batch; in every other case it throws with the
    committed tables as they were. *)
Lemma store_transaction_run E symbol data w :
  exists o w',
    (client_BEGIN E ;;
     companyInfo <- getCompanyInfo E symbol ;;
     client_query E (upsert_stock symbol
                       (Js.get companyInfo "name") (Js.get companyInfo "sector")
                       (Js.get companyInfo "industry")
                       (Js.get companyInfo "marketCap")) ;;
     price_loop E symbol data ;;
     client_COMMIT E ;;
     logger Debug ("Stored " +:+ pretty (length data) +:+ " data points for " +:+ symbol)
            None) w = (o, w') /\
    ((o = Ok tt /\
      (forall k, (k < 3 + length data)%nat -> db_fault E (db_ops w + k)%nat = false) /\
      batch_committed E symbol data w w' /\ db_txn w' = None /\
      store_success_logged symbol data w') \/
     ((exists e, o = Throw e) /\ db w' = db w /\
      ((exists k, (k < 3 + length data)%nat /\ db_fault E (db_ops w + k)%nat = true) \/
       (exists e, company_outcome E w symbol = Throw e) \/
       (exists info e, company_outcome E w symbol = Ok info /\
                       apply_batch symbol info data (now w) (db w) = Throw e)))).
Proof.
  set (w1 := with_db_txn (Some (db w)) (with_db_ops (S (db_ops w)) w)).
  destruct (db_fault E (db_ops w)) eqn:Hf0.
  { erewrite bind_throw
      by (unfold client_BEGIN, db_call; rewrite Hf0; reflexivity).
    do 2 eexists. split; [reflexivity |]. right. cbn. split; [eauto |].
    split; [done |]. left. exists 0%nat. split; [lia |]. by rewrite Nat.add_0_r. }
  erewrite bind_ok by (unfold client_BEGIN, db_call; rewrite Hf0; reflexivity).
  destruct (getCompanyInfo_run E symbol w1) as (w2 & Hinfo & Hframe).
  change (company_outcome E w1 symbol) with (company_outcome E w symbol) in Hinfo.
  destruct Hframe as (Hnow2 & Hdb2 & Htxn2 & Hops2 & _).
  cbn in Hnow2, Hdb2, Htxn2, Hops2.
  destruct (company_outcome E w symbol) as [info | e] eqn:Hcompany.
  2:{ erewrite bind_throw by exact Hinfo.
      do 2 eexists. split; [reflexivity |]. right. split; [eauto |].
      split; [done |]. right. left. eauto. }
  erewrite bind_ok by exact Hinfo.
  destruct (db_fault E (db_ops w2)) eqn:Hf2.
  { erewrite bind_throw
      by (unfold client_query, db_call; rewrite Hf2; reflexivity).
    do 2 eexists. split; [reflexivity |]. right. cbn. split; [eauto |].
    split; [done |]. left. exists 1%nat. split; [lia |].
    rewrite Hops2 in Hf2. by replace (db_ops w + 1)%nat with (S (db_ops w)) by lia. }
  destruct (upsert_stock symbol (Js.get info "name") (Js.get info "sector")
              (Js.get info "industry") (Js.get info "marketCap") (now w) (db w))
    as [[[] t1] | e] eqn:Hstock.
  2:{ erewrite bind_throw
        by (unfold client_query, db_call; rewrite Hf2; cbn [db_txn with_db_ops now];
            rewrite Htxn2, Hnow2, Hstock; reflexivity).
      do 2 eexists. split; [reflexivity |]. right. cbn. split; [eauto |].
      split; [done |]. right. right. exists info, e. split; [done |].
      unfold apply_batch. by rewrite Hstock. }
  set (w3 := with_db_txn (Some t1) (with_db_ops (S (db_ops w2)) w2)).
  erewrite bind_ok
    by (unfold client_query, db_call; rewrite Hf2; cbn [db_txn with_db_ops now];
        rewrite Htxn2, Hnow2, Hstock; reflexivity).
  fold w3.
  destruct (price_loop_run E symbol data w3 t1 eq_refl)
    as (o & w4 & Hloop & Hdb4 & Hnow4 & Hres).
  cbn in Hdb4, Hnow4, Hres. rewrite Hops2, Hnow2 in Hres.
  destruct Hres as [(-> & Hup & Hops4 & Hlog4 & t' & Happly & Htxn4) |
                    (Hthrow & Hwhy)].
  2:{ destruct Hthrow as [e ->]. erewrite bind_throw by exact Hloop.
      do 2 eexists. split; [reflexivity |]. right. split; [eauto |].
      split; [congruence |].
      destruct Hwhy as [(k & Hk & Hfk) | [e' He']].
      - left. exists (2 + k)%nat. split; [lia |].
        by replace (db_ops w + (2 + k))%nat with (S (S (db_ops w)) + k)%nat by lia.
      - right. right. exists info, e'. split; [done |].
        unfold apply_batch. by rewrite Hstock. }
  erewrite bind_ok by exact Hloop.
  destruct (db_fault E (db_ops w4)) eqn:Hf4.
  { erewrite bind_throw
      by (unfold client_COMMIT, db_call; rewrite Hf4; reflexivity).
    do 2 eexists. split; [reflexivity |]. right. cbn. split; [eauto |].
    split; [congruence |]. left. exists (2 + length data)%nat. split; [lia |].
    rewrite Hops4 in Hf4.
    by replace (db_ops w + (2 + length data))%nat
         with (S (S (db_ops w)) + length data)%nat by lia. }
  erewrite bind_ok
    by (unfold client_COMMIT, db_call; rewrite Hf4; cbn [db_txn with_db_ops];
        rewrite Htxn4; reflexivity).
  do 2 eexists. split; [reflexivity |]. left. split; [reflexivity |].
  split; [| split; [| split; [reflexivity |]]].
  - intros k Hk.
    destruct k as [| [| k]].
    + by rewrite Nat.add_0_r.
    + rewrite Hops2 in Hf2. by replace (db_ops w + 1)%nat with (S (db_ops w)) by lia.
    + destruct (decide (k < length data)%nat) as [Hlt | Hge].
      * replace (db_ops w + S (S k))%nat with (S (S (db_ops w)) + k)%nat by lia.
        by apply Hup.
      * assert (k = length data) as -> by lia.
        rewrite Hops4 in Hf4.
        by replace (db_ops w + S (S (length data)))%nat
             with (S (S (db_ops w)) + length data)%nat by lia.
  - exists info, t'. split; [done |]. split; [| reflexivity].
    unfold apply_batch. by rewrite Hstock.
  - unfold store_success_logged, logger, modify. cbn. eauto.
Qed.

(** [storeStockData] as a whole: it returns normally, having committed the
    whole batch when nothing fails, and having left the committed tables as
    they were, with the failure logged, in every other case. *)
Lemma storeStockData_run E symbol data w :
  exists w',
    storeStockData E symbol data w = (Ok tt, w') /\
    ((batch_succeeds E symbol data w /\
      batch_committed E symbol data w w' /\ db_txn w' = None /\
      store_success_logged symbol data w') \/
     (~ batch_succeeds E symbol data w /\
      db w' = db w /\ store_failure_logged symbol w' /\
      ((forall n, db_fault E n = false) -> db_txn w' = None))).
Proof.
  unfold storeStockData.
  destruct (db_fault E (db_ops w)) eqn:Hf0.
  { erewrite try_catch_throw
      by (erewrite bind_throw
            by (unfold pool_connect, db_call; rewrite Hf0; reflexivity);
          reflexivity).
    eexists. split; [reflexivity |]. right.
    split; [| split; [reflexivity | split; [by eexists _, _ |]]].
    - intros [Hup _]. specialize (Hup 0%nat). rewrite Nat.add_0_r, Hf0 in Hup.
      unfold store_calls in Hup. discriminate Hup. lia.
    - intros Hup. by rewrite Hup in Hf0. }
  set (w1 := with_db_ops (S (db_ops w)) w).
  destruct (store_transaction_run E symbol data w1) as (o & w2 & Hbody & Hres).
  change (company_outcome E w1 symbol) with (company_outcome E w symbol) in Hres.
  change (now w1) with (now w) in Hres. change (db w1) with (db w) in Hres.
  change (db_ops w1) with (S (db_ops w)) in Hres.
  assert (Hcommitted : forall w', batch_committed E symbol data w1 w' ->
                                  batch_committed E symbol data w w') by done.
  destruct Hres as [(-> & Hup & Hbatch & Htxn & Hlog) | ([e ->] & Hdb & Hwhy)].
  - erewrite try_catch_ok.
    2:{ erewrite bind_ok
          by (unfold pool_connect, db_call; rewrite Hf0; reflexivity).
        unfold try_finally. erewrite try_catch_ok by exact Hbody. reflexivity. }
    eexists. split; [reflexivity |]. left.
    split; [| split; [by apply Hcommitted | done]].
    split.
    + unfold store_calls. intros [| k] Hk; [by rewrite Nat.add_0_r |].
      replace (db_ops w + S k)%nat with (S (db_ops w) + k)%nat by lia. apply Hup. lia.
    + destruct Hbatch as (info & d' & Hinfo & Happly & _). eauto.
  - assert (Hnot : ~ batch_succeeds E symbol data w).
    { intros [Hup (info & d' & Hinfo & Happly)].
      destruct Hwhy as [(k & Hk & Hfk) | [[e' He'] | (info' & e' & Hinfo' & He')]].
      - specialize (Hup (S k)).
        replace (db_ops w + S k)%nat with (S (db_ops w) + k)%nat in Hup by lia.
        rewrite Hfk in Hup. unfold store_calls in Hup. discriminate Hup. lia.
      - congruence.
      - rewrite Hinfo in Hinfo'. simplify_eq. congruence. }
    destruct (db_fault E (db_ops w2)) eqn:Hf2.
    + erewrite try_catch_throw.
      2:{ erewrite bind_ok
            by (unfold pool_connect, db_call; rewrite Hf0; reflexivity).
          unfold try_finally. erewrite try_catch_throw by exact Hbody.
          erewrite bind_throw
            by (unfold client_ROLLBACK, db_call; rewrite Hf2; reflexivity).
          reflexivity. }
      eexists. split; [reflexivity |]. right. split; [exact Hnot |].
      split; [exact Hdb |]. split; [by eexists _, _ |].
      intros Hup. by rewrite Hup in Hf2.
    + erewrite try_catch_throw.
      2:{ erewrite bind_ok
            by (unfold pool_connect, db_call; rewrite Hf0; reflexivity).
          unfold try_finally. erewrite try_catch_throw by exact Hbody.
          erewrite bind_ok
            by (unfold client_ROLLBACK, db_call; rewrite Hf2; reflexivity).
          reflexivity. }
      eexists. split; [reflexivity |]. right. split; [exact Hnot |].
      split; [exact Hdb |]. split; [by eexists _, _ | reflexivity].
Qed.

(** [storeStockData] never throws, and it is all or nothing. *)
Lemma storeStockData_atomic E symbol data w :
  fst (storeStockData E symbol data w) = Ok tt /\
  (batch_committed E symbol data w (snd (storeStockData E symbol data w)) \/
   db (snd (storeStockData E symbol data w)) = db w /\
   store_failure_logged symbol (snd (storeStockData E symbol data w))).
Proof.
  destruct (storeStockData_run E symbol data w) as (w' & -> & Hres).
  split; [reflexivity |]. cbn [snd]. tauto.
Qed.

(** What [getStockData] returns is read off the cache and the provider; the
    database plays no part in it. *)
Lemma getStockData_run E symbol period interval w :
  fst (getStockData E symbol period interval w) =
  stock_data_outcome E w symbol period interval.
Proof.
  unfold getStockData, getMarketData, setMarketData, stock_data_outcome.
  change ("market:" +:+ "stock_data:" +:+ symbol +:+ ":" +:+ period +:+ ":" +:+ interval)
    with ("market:stock_data:" +:+ symbol +:+ ":" +:+ period +:+ ":" +:+ interval).
  set (key := "market:stock_data:" +:+ symbol +:+ ":" +:+ period +:+ ":" +:+ interval).
  destruct (getCache_run E key w) as [l Hget].
  set (w1 := with_log l (with_redis_ops (S (redis_ops w)) w)) in *.
  unfold try_catch. erewrite bind_ok by exact Hget.
  destruct (Js.truthy (cache_read E w key)); [reflexivity |].
  unfold bind at 1, logger at 1, modify at 1.
  set (w2 := with_log _ w1).
  unfold bind at 1, get_world at 1.
  unfold bind at 1, lift at 1.
  change (now w2) with (now w).
  destruct (yahoo_historical E symbol _ interval) as [data | e]; [| reflexivity].
  destruct data as [| | b | n | | s | [| row rows] | fields | name | t];
    try reflexivity; try (destruct (negb _ || _); reflexivity).
  unfold bind at 1, lift at 1.
  destruct (transform_rows E (row :: rows)) as [transformed | e]; [| reflexivity].
  destruct (setCache_run E key (JArr transformed) cacheTTL w2)
    as (l' & r & n & Hset & _).
  erewrite bind_ok by exact Hset.
  set (w3 := with_log l' _).
  pose proof (proj1 (storeStockData_atomic E symbol transformed w3)) as Hstore.
  destruct (storeStockData E symbol transformed w3) as [o w4] eqn:Hs.
  cbn [fst] in Hstore. subst o.
  erewrite bind_ok by exact Hs. reflexivity.
Qed.

Lemma stock_data_outcome_database E f d txn ops w symbol period interval :
  stock_data_outcome (with_db_fault f E) (with_database d txn ops w) symbol period interval =
  stock_data_outcome E w symbol period interval.
Proof. reflexivity. Qed.

(** C6.  [storeStockData] runs the reference-table upsert and the price
    upserts of the batch as one transaction and never throws.  When nothing
    fails (no pool or client call, the company lookup, no statement), the
    committed tables become exactly what the reference-table upsert followed
    by every price upsert makes of them, the transaction is closed and the
    batch is reported in the log.  In every other case the committed tables
    are exactly what they were, whatever part of the batch had already run,
    and the failure is the last entry of the log; when the failure is not
    one of the database calls themselves, the ROLLBACK has gone through and
    no transaction is left open.  And what [getStockData]
    returns is the same whatever the database holds and however it fails. *)
Theorem storeStockData_all_or_nothing E symbol period interval data w :
  fst (storeStockData E symbol data w) = Ok tt /\
  (batch_committed E symbol data w (snd (storeStockData E symbol data w)) \/
   db (snd (storeStockData E symbol data w)) = db w /\
   store_failure_logged symbol (snd (storeStockData E symbol data w))) /\
  (batch_succeeds E symbol data w ->
   batch_committed E symbol data w (snd (storeStockData E symbol data w)) /\
   db_txn (snd (storeStockData E symbol data w)) = None /\
   store_success_logged symbol data (snd (storeStockData E symbol data w))) /\
  (~ batch_succeeds E symbol data w ->
   db (snd (storeStockData E symbol data w)) = db w /\
   store_failure_logged symbol (snd (storeStockData E symbol data w)) /\
   ((forall n, db_fault E n = false) ->
    db_txn (snd (storeStockData E symbol data w)) = None)) /\
  (forall f d txn ops,
     fst (getStockData (with_db_fault f E) symbol period interval
            (with_database d txn ops w)) =
     fst (getStockData E symbol period interval w)).
Proof.
  destruct (storeStockData_run E symbol data w) as (w' & Hrun & Hres).
  rewrite Hrun. cbn [fst snd].
  split; [reflexivity |].
  split; [tauto |]. split; [tauto |]. split; [tauto |].
  intros f d txn ops.
  by rewrite !getStockData_run, stock_data_outcome_database.
Qed.

(** In the deployment: two bars are committed together with the
    reference-table row; when the second bar is refused, or when the call
    that would commit fails, nothing of the batch is kept, not even the
    reference-table row and the first bar that had gone through. *)
Lemma storeStockData_all_or_nothing_witness :
  db (snd (storeStockData Scenario.env "AAPL" two_bars Scenario.w0)) =
    tables_with_two_bars /\
  (db (snd (storeStockData Scenario.env "AAPL" bars_with_bad_second Scenario.w0)) =
     Scenario.tables /\
   store_failure_logged "AAPL"
     (snd (storeStockData Scenario.env "AAPL" bars_with_bad_second Scenario.w0)) /\
   db_txn (snd (storeStockData Scenario.env "AAPL" bars_with_bad_second Scenario.w0)) =
     None) /\
  db (snd (storeStockData (with_db_fault (fun n => Nat.eqb n 5) Scenario.env) "AAPL"
             two_bars Scenario.w0)) = Scenario.tables.
Proof.
  split; [| split].
  - destruct (proj1 (proj2 (proj2 (storeStockData_all_or_nothing Scenario.env "AAPL"
                                     "1y" "1d" two_bars Scenario.w0))))
      as ((info & d' & Hinfo & Hbatch & Hdb) & _).
    { split; [intros k Hk; reflexivity |].
      eexists _, _. split; vm_compute; reflexivity. }
    rewrite Hdb. vm_compute in Hinfo. simplify_eq. vm_compute in Hbatch.
    simplify_eq. vm_compute. reflexivity.
  - destruct (proj1 (proj2 (proj2 (proj2 (storeStockData_all_or_nothing Scenario.env
                                            "AAPL" "1y" "1d" bars_with_bad_second
                                            Scenario.w0)))))
      as (Hdb & Hlog & Htxn).
    { intros [_ (info & d' & Hinfo & Hbatch)].
      vm_compute in Hinfo. injection Hinfo as <-. vm_compute in Hbatch.
      discriminate Hbatch. }
    split; [exact Hdb |]. split; [exact Hlog |]. apply Htxn. reflexivity.
  - apply (proj1 (proj2 (proj2 (proj2 (storeStockData_all_or_nothing
             (with_db_fault (fun n => Nat.eqb n 5) Scenario.env) "AAPL"
             "1y" "1d" two_bars Scenario.w0))))).
    intros [Hup _]. specialize (Hup 5%nat). cbn in Hup.
    unfold store_calls in Hup. cbn in Hup. discriminate Hup. lia.
Defined.

(** ** The stock-data route and the period table *)















